(** * Sapling: the WIT schema compiler [tools/wit_schema_codegen.py]

    A shallow embedding of the schema compiler of lambkin-lang/sapling and
    the properties of its record parser, dbi resolver, manifest reconciler
    and layout/validator generator.

    Conventions of the embedding.
    - A Python [str] is a [string]; a character is an [ascii], read as the
      code point 0..255.  Python's Unicode character classes ([\s], [\w],
      [str.strip], [str.upper]) are written out on that range.
    - A Python [int] is a [Z].
    - [dict] is stdpp's [gmap]; a raised [ValueError] is the left injection
      of a sum, carrying the values the message names.
    - The three output files are a record of optional contents, each
      the text of the file; the manifest is written and read through the
      module [Csv], which gives [csv.writer] and [csv.reader] as the tool
      sets them up. *)

From Stdlib Require Import ZArith Ascii String List Bool Lia.
From stdpp Require Import gmap strings list sorting.

Local Open Scope Z_scope.

(** ** Characters *)

Module Chr.

Definition code (c : ascii) : N := N_of_ascii c.

Definition in_range (lo hi c : ascii) : bool :=
  ((code lo <=? code c) && (code c <=? code hi))%N.

Definition nl : ascii := "010"%char.
Definition tab : ascii := "009"%char.
Definition dquote : ascii := "034"%char.

Definition is_digit (c : ascii) : bool := in_range "0" "9" c.
Definition is_lower (c : ascii) : bool := in_range "a" "z" c.
Definition is_upper (c : ascii) : bool := in_range "A" "Z" c.

(** [Py_UNICODE_ISSPACE] below U+0100: [\t \n \v \f \r], U+001C..U+001F,
    the space, U+0085 and U+00A0.  It is the class behind [\s] and
    [str.strip()]. *)
Definition is_space (c : ascii) : bool :=
  in_range "009" "013" c || in_range "028" "031" c || Ascii.eqb c " "
  || Ascii.eqb c "133" || Ascii.eqb c "160".

(** [\w] on [str] patterns below U+0100: the alphanumeric code points
    ([str.isalnum]) and the underscore. *)
Definition is_word (c : ascii) : bool :=
  is_digit c || is_lower c || is_upper c || Ascii.eqb c "_"
  || Ascii.eqb c "170" || Ascii.eqb c "178" || Ascii.eqb c "179"
  || Ascii.eqb c "181" || Ascii.eqb c "185" || Ascii.eqb c "186"
  || in_range "188" "190" c || in_range "192" "214" c
  || in_range "216" "246" c || in_range "248" "255" c.

(** The character classes of the three patterns. *)
Definition blank (c : ascii) : bool := Ascii.eqb c " " || Ascii.eqb c tab.
Definition ident_head (c : ascii) : bool := is_lower c || is_digit c.
Definition ident (c : ascii) : bool :=
  is_lower c || is_digit c || Ascii.eqb c "-".
Definition is_not (x c : ascii) : bool := negb (Ascii.eqb c x).

End Chr.

(** ** Strings *)

Module Str.

Fixpoint take (n : nat) (s : string) : string :=
  match n, s with
  | S n', String c s' => String c (take n' s')
  | _, _ => ""
  end.

Fixpoint drop (n : nat) (s : string) : string :=
  match n, s with
  | S n', String c s' => drop n' s'
  | _, _ => s
  end.

(** [s.startswith(p)], returning what follows the prefix. *)
Fixpoint strip_prefix (p s : string) : option string :=
  match p, s with
  | EmptyString, _ => Some s
  | String a p', String b s' =>
      if Ascii.eqb a b then strip_prefix p' s' else None
  | String _ _, EmptyString => None
  end.

Fixpoint last_char (d : option ascii) (s : string) : option ascii :=
  match s with
  | EmptyString => d
  | String c s' => last_char (Some c) s'
  end.

(** [p in s] *)
Fixpoint contains (p s : string) : bool :=
  match strip_prefix p s with
  | Some _ => true
  | None => match s with
            | EmptyString => false
            | String _ s' => contains p s'
            end
  end.

Definition map_chars (f : ascii -> ascii) : string -> string :=
  fix go s := match s with
              | EmptyString => EmptyString
              | String c s' => String (f c) (go s')
              end.

(** [s.replace(a, b)] for one-character [a] and [b]. *)
Definition replace_char (a b : ascii) : string -> string :=
  map_chars (fun c => if Ascii.eqb c a then b else c).

(** [str.upper()] on the letters [a-z]; the labels it is applied to are
    made of [a-z0-9_] only. *)
Definition upper : string -> string :=
  map_chars (fun c => if Chr.is_lower c
                      then ascii_of_N (Chr.code c - 32) else c).

Fixpoint lstrip (s : string) : string :=
  match s with
  | String c s' => if Chr.is_space c then lstrip s' else s
  | EmptyString => EmptyString
  end.

Fixpoint rstrip (s : string) : string :=
  match s with
  | String c s' =>
      match rstrip s' with
      | EmptyString => if Chr.is_space c then "" else String c ""
      | t => String c t
      end
  | EmptyString => EmptyString
  end.

(** [s.strip()] *)
Definition strip (s : string) : string := rstrip (lstrip s).

(** [sep.join(l)] *)
Fixpoint join (sep : string) (l : list string) : string :=
  match l with
  | [] => ""
  | [x] => x
  | x :: l' => x +:+ sep +:+ join sep l'
  end.

Definition is_empty (s : string) : bool :=
  match s with EmptyString => true | _ => false end.

(** Every character of [s] is in the class [p]. *)
Fixpoint all (p : ascii -> bool) (s : string) : bool :=
  match s with
  | EmptyString => true
  | String c s' => p c && all p s'
  end.

End Str.

(** ** A backtracking matcher for the patterns of the program

  The matcher follows [re]'s search: alternatives are tried left to
  right, quantifiers are greedy and give back one character at a time,
  and the first way to match the whole pattern wins.  Every starred or
  plussed sub-pattern of the program is a single character class, so
  repetition is defined on classes. *)

Module Re.

Inductive re : Type :=
| Cls (p : ascii -> bool)     (* one character of a class *)
| Lit (l : string)            (* literal text *)
| Seq (r1 r2 : re)
| Alt (r1 r2 : re)            (* r1|r2 *)
| Opt (r : re)                (* (?:r)? *)
| Star (p : ascii -> bool)    (* [class]* *)
| Grp (n : nat) (r : re)      (* capturing group number n *)
| Bos                         (* ^ *)
| Bol                         (* ^ under re.MULTILINE *)
| Eos                         (* $ *)
| Wordb.                      (* \b *)

Definition Plus (p : ascii -> bool) : re := Seq (Cls p) (Star p).

Declare Scope re_scope.
Delimit Scope re_scope with re.
Bind Scope re_scope with re.
Infix "++" := Seq (at level 60, right associativity) : re_scope.

(** Where a match attempt stands: the character before the position
    ([None] at the start of the subject), the number of characters the
    attempt has consumed, the text ahead, and the groups set so far. *)
Record mstate : Type := MState {
  prev : option ascii;
  used : nat;
  rest : string;
  caps : nat -> option string
}.

Definition set_cap (n : nat) (v : string) (g : nat -> option string)
  : nat -> option string :=
  fun i => if Nat.eqb i n then Some v else g i.

Definition no_caps : nat -> option string := fun _ => None.

Definition word_at (o : option ascii) : bool :=
  match o with Some c => Chr.is_word c | None => false end.

Definition next (s : string) : option ascii :=
  match s with String c _ => Some c | EmptyString => None end.

Section Exec.
Context {A : Type}.

Definition orelse (x y : option A) : option A :=
  match x with Some a => Some a | None => y end.

(** Greedy [class]*: take one more character if possible; on failure
    of what follows, give it back. *)
Fixpoint star (p : ascii -> bool) (k : mstate -> option A)
    (pv : option ascii) (u : nat) (s : string)
    (g : nat -> option string) : option A :=
  match s with
  | String c s' =>
      if p c
      then orelse (star p k (Some c) (S u) s' g) (k (MState pv u s g))
      else k (MState pv u s g)
  | EmptyString => k (MState pv u s g)
  end.

Fixpoint exec (r : re) (k : mstate -> option A) (st : mstate)
  : option A :=
  match r with
  | Cls p =>
      match rest st with
      | String c s' =>
          if p c then k (MState (Some c) (S (used st)) s' (caps st))
          else None
      | EmptyString => None
      end
  | Lit l =>
      match Str.strip_prefix l (rest st) with
      | Some s' =>
          k (MState (Str.last_char (prev st) l)
                    (used st + String.length l) s' (caps st))
      | None => None
      end
  | Seq r1 r2 => exec r1 (exec r2 k) st
  | Alt r1 r2 => orelse (exec r1 k st) (exec r2 k st)
  | Opt r1 => orelse (exec r1 k st) (k st)
  | Star p => star p k (prev st) (used st) (rest st) (caps st)
  | Grp n r1 =>
      exec r1
        (fun st' =>
           k (MState (prev st') (used st') (rest st')
                (set_cap n (Str.take (used st' - used st) (rest st))
                   (caps st'))))
        st
  | Bos => match prev st with None => k st | Some _ => None end
  | Bol =>
      match prev st with
      | None => k st
      | Some c => if Ascii.eqb c Chr.nl then k st else None
      end
  | Eos =>
      match rest st with
      | EmptyString => k st
      | String c EmptyString => if Ascii.eqb c Chr.nl then k st else None
      | _ => None
      end
  | Wordb =>
      if xorb (word_at (prev st)) (word_at (next (rest st)))
      then k st else None
  end.
End Exec.

(** A match object: its length and its groups. *)
Record rmatch : Type := RMatch {
  m_len : nat;
  m_group : nat -> option string
}.

(** [m.group(i)] of a group that took part in the match. *)
Definition group (m : rmatch) (i : nat) : string :=
  default "" (m_group m i).

Definition accept (must_advance : bool) (st : mstate) : option rmatch :=
  if must_advance && Nat.eqb (used st) 0 then None
  else Some (RMatch (used st) (caps st)).

(** One attempt at the position that has [pv] before it and [s] ahead. *)
Definition match_here (r : re) (must_advance : bool)
    (pv : option ascii) (s : string) : option rmatch :=
  exec r (accept must_advance) (MState pv 0 s no_caps).

(** [pattern.match(s)] *)
Definition pmatch (r : re) (s : string) : option rmatch :=
  match_here r false None s.

(** The subject cut up by the successive matches of a search loop
    ([finditer], [sub]): a character no match covers, or a match. *)
Inductive piece : Type :=
| Gap (c : ascii)
| Hit (m : rmatch).

(** The search loop.  [skip] counts the characters of the last match
    still to be stepped over; [adv] is sre's [must_advance], set after
    an empty match, which forbids a second empty match at its position. *)
Fixpoint scan (r : re) (pv : option ascii) (skip : nat) (adv : bool)
    (s : string) : list piece :=
  match s with
  | EmptyString =>
      match skip with
      | O => match match_here r adv pv "" with
             | Some m => [Hit m]
             | None => []
             end
      | S _ => []
      end
  | String c s' =>
      match skip with
      | S n => scan r (Some c) n false s'
      | O =>
          match match_here r adv pv s with
          | Some m =>
              match m_len m with
              | O =>
                  Hit m ::
                  match match_here r true pv s with
                  | Some m' =>
                      Hit m' :: scan r (Some c) (Nat.pred (m_len m')) false s'
                  | None => Gap c :: scan r (Some c) 0 false s'
                  end
              | S n => Hit m :: scan r (Some c) n false s'
              end
          | None => Gap c :: scan r (Some c) 0 false s'
          end
      end
  end.

(** [pattern.finditer(s)] *)
Definition finditer (r : re) (s : string) : list rmatch :=
  omap (fun p => match p with Hit m => Some m | Gap _ => None end)
       (scan r None 0 false s).

(** [re.sub(pattern, repl, s)] for a replacement text without
    backslashes. *)
Definition sub (r : re) (repl s : string) : string :=
  fold_right
    (fun p acc => match p with
                  | Gap c => String c acc
                  | Hit _ => repl +:+ acc
                  end)
    "" (scan r None 0 false s).

(** What the matcher computes, stated on the text a pattern covers:
    [spans r pv w after g g'] says that [r] can match exactly [w] when
    [pv] is the character before [w] and [after] the text behind it,
    turning the groups [g] into [g']. *)
Fixpoint spans (r : re) (pv : option ascii) (w after : string)
    (g g' : nat -> option string) : Prop :=
  match r with
  | Cls p => (exists c, w = String c "" /\ p c = true) /\ g' = g
  | Lit l => w = l /\ g' = g
  | Seq r1 r2 =>
      exists w1 w2 g1,
        w = w1 +:+ w2
        /\ spans r1 pv w1 (w2 +:+ after) g g1
        /\ spans r2 (Str.last_char pv w1) w2 after g1 g'
  | Alt r1 r2 => spans r1 pv w after g g' \/ spans r2 pv w after g g'
  | Opt r1 => spans r1 pv w after g g' \/ (w = "" /\ g' = g)
  | Star p => Str.all p w = true /\ g' = g
  | Grp n r1 => exists g1, spans r1 pv w after g g1 /\ g' = set_cap n w g1
  | Bos => w = "" /\ g' = g /\ pv = None
  | Bol => w = "" /\ g' = g /\ (pv = None \/ pv = Some Chr.nl)
  | Eos =>
      w = "" /\ g' = g /\ (after = "" \/ after = String Chr.nl "")
  | Wordb =>
      w = "" /\ g' = g /\ xorb (word_at pv) (word_at (next after)) = true
  end.

End Re.

(** ** The patterns of the program *)

Import Re.

(** [RECORD_BLOCK_RE], compiled with [re.MULTILINE]; its parts, spaced out:
    [(?: ^ [ \t]* /// \s* @refine\( ( [^)]+ ) \) \s* \n )?]
    [[ \t]* record \s+ ( [a-z0-9] [a-z0-9-]* ) \s* \{ ( [^}]* ) \}] *)
Definition RECORD_BLOCK_RE : re :=
  (Opt (Bol ++ Star Chr.blank ++ Lit "///" ++ Star Chr.is_space
        ++ Lit "@refine(" ++ Grp 1 (Plus (Chr.is_not ")"))
        ++ Lit ")" ++ Star Chr.is_space ++ Cls (Ascii.eqb Chr.nl))
   ++ Star Chr.blank ++ Lit "record" ++ Plus Chr.is_space
   ++ Grp 2 (Cls Chr.ident_head ++ Star Chr.ident)
   ++ Star Chr.is_space ++ Lit "{"
   ++ Grp 3 (Star (Chr.is_not "}")) ++ Lit "}")%re.

(** [DBI_REC_RE]; its parts, spaced out:
    [^ dbi ( [0-9]+ ) - ( [a-z0-9] [a-z0-9-]* ) - ( key | value ) $] *)
Definition DBI_REC_RE : re :=
  (Bos ++ Lit "dbi" ++ Grp 1 (Plus Chr.is_digit) ++ Lit "-"
   ++ Grp 2 (Cls Chr.ident_head ++ Star Chr.ident) ++ Lit "-"
   ++ Grp 3 (Alt (Lit "key") (Lit "value")) ++ Eos)%re.

(** [FIELD_RE], compiled with [re.MULTILINE]; its parts, spaced out:
    [^ \s* ( [a-z0-9-]+ ) \s* : \s* ( [a-z0-9-]+ (?: < [^>]+ > )? ) \s* ,] *)
Definition FIELD_RE : re :=
  (Bol ++ Star Chr.is_space ++ Grp 1 (Plus Chr.ident)
   ++ Star Chr.is_space ++ Lit ":" ++ Star Chr.is_space
   ++ Grp 2 (Plus Chr.ident
             ++ Opt (Lit "<" ++ Plus (Chr.is_not ">") ++ Lit ">"))
   ++ Star Chr.is_space ++ Lit ",")%re.

(** ** The data classes *)

Record WitField : Type := mkWitField {
  f_name : string;
  wit_type : string
}.

Record WitRecord : Type := mkWitRecord {
  r_name : string;
  refine_rule : option string;
  fields : list WitField
}.

Record DbiEntry : Type := mkDbiEntry {
  dbi : Z;
  e_name : string;
  key_record : string;
  value_record : string;
  key_ast : WitRecord;
  value_ast : WitRecord
}.

(** The [c_name] properties. *)
Definition field_c_name (f : WitField) : string :=
  Str.replace_char "-" "_" (f_name f).

Definition record_c_name (r : WitRecord) : string :=
  Str.replace_char "-" "_" (r_name r).

Definition entry_c_name (e : DbiEntry) : string :=
  Str.upper (Str.replace_char "-" "_" (e_name e)).

(** ** Record parser (the head of the loop of [parse_dbi_entries]) *)

(** The inner loop over [FIELD_RE.finditer(body)]. *)
Definition parse_fields (body : string) : list WitField :=
  map (fun m => mkWitField (group m 1) (group m 2)) (finditer FIELD_RE body).

(** The [WitRecord] built from one match of [RECORD_BLOCK_RE]. *)
Definition record_of_match (m : rmatch) : WitRecord :=
  mkWitRecord (group m 2) (m_group m 1) (parse_fields (group m 3)).

(** All the records of a source text, in order of appearance. *)
Definition parse_records (wit_text : string) : list WitRecord :=
  map record_of_match (finditer RECORD_BLOCK_RE wit_text).

(** ** Integers and their decimal text *)

Module PyInt.

Definition digit_val (c : ascii) : option Z :=
  if Chr.is_digit c then Some (Z.of_N (Chr.code c) - 48) else None.

(** The body of a decimal literal as [int(s, 10)] reads it: digits, with
    single underscores allowed between two digits.  [after_digit] tells
    whether the character just read was a digit. *)
Fixpoint int_digits (after_digit : bool) (acc : Z) (s : string)
  : option Z :=
  match s with
  | EmptyString => if after_digit then Some acc else None
  | String c s' =>
      if Ascii.eqb c "_"
      then (if after_digit then int_digits false acc s' else None)
      else match digit_val c with
           | Some v => int_digits true (acc * 10 + v) s'
           | None => None
           end
  end.

(** The white space [int] drops around a literal, below U+0100: the
    ASCII white space [\t \n \v \f \r] and the space, and U+0085 and
    U+00A0, which the conversion of a text that is not ASCII turns into
    spaces.  U+001C..U+001F are white space for [str.strip] but not for
    [int]. *)
Definition is_space (c : ascii) : bool :=
  Chr.in_range "009" "013" c || Ascii.eqb c " "
  || Ascii.eqb c "133" || Ascii.eqb c "160".

Fixpoint lstrip (s : string) : string :=
  match s with
  | String c s' => if is_space c then lstrip s' else s
  | EmptyString => EmptyString
  end.

Fixpoint rstrip (s : string) : string :=
  match s with
  | String c s' =>
      match rstrip s' with
      | EmptyString => if is_space c then "" else String c ""
      | t => String c t
      end
  | EmptyString => EmptyString
  end.

(** [int(s, 10)]: the white space around the literal is dropped, one
    sign is allowed; [None] stands for the [ValueError].  (The limit the
    interpreter puts on the number of digits of a literal,
    [sys.set_int_max_str_digits], is a setting of the interpreter and is
    left out.) *)
Definition int (s : string) : option Z :=
  match rstrip (lstrip s) with
  | String c t =>
      if Ascii.eqb c "+" then int_digits false 0 t
      else if Ascii.eqb c "-" then Z.opp <$> int_digits false 0 t
      else int_digits false 0 (String c t)
  | EmptyString => None
  end.

Definition digit_char (d : Z) : ascii := ascii_of_N (Z.to_N (48 + d)).

(** The decimal digits of [n >= 0] in front of [acc], most significant
    first; [fuel] bounds the number of digits. *)
Fixpoint digits_of (fuel : nat) (n : Z) (acc : string) : string :=
  match fuel with
  | O => acc
  | S f =>
      let acc' := String (digit_char (n mod 10)) acc in
      if n <? 10 then acc' else digits_of f (n / 10) acc'
  end.

Definition fuel_for (n : Z) : nat := S (Z.to_nat (Z.log2 n)).

(** [str(n)] *)
Definition str (n : Z) : string :=
  if n <? 0 then String "-" (digits_of (fuel_for (- n)) (- n) "")
  else digits_of (fuel_for n) n "".

End PyInt.

(** ** Dbi resolver: [parse_dbi_entries] *)

(** The [ValueError]s of the resolver, with the values their messages
    name, and the two exceptions the subscripts and [int] could raise. *)
Inductive error : Type :=
| MultipleNames (d : Z) (old new : string)
    (* "dbi {d} has multiple names ({old!r} vs {new!r})" *)
| DuplicateKind (kind : string) (d : Z) (rec_name : string)
    (* "duplicate {kind} record for dbi {d}: {rec_name}" *)
| NoDbiRecords
    (* "no dbi records found (expected dbiN-*-key/value records)" *)
| NotFromZero
    (* "dbi sequence must start at 0" *)
| SequenceGap (prev cur : Z)
    (* "dbi sequence gap between {prev} and {cur}" *)
| MissingPair (d : Z) (slot : gmap string WitRecord)
    (* "dbi {d} missing key/value pair: {slot}" *)
| InvalidLiteral (s : string)
    (* int(): "invalid literal for int() with base 10" *)
| KeyError (d : Z)
| IndexError.

(** The two dictionaries the loop fills. *)
Record tables : Type := mkTables {
  per_dbi : gmap Z (gmap string WitRecord);
  names_by_dbi : gmap Z string
}.

Definition no_tables : tables := mkTables ∅ ∅.

(** The label check of the loop body: the error it raises, if any. *)
Definition name_conflict (t : tables) (d : Z) (name : string)
  : option error :=
  match names_by_dbi t !! d with
  | Some old =>
      if negb (String.eqb old name)
      then Some (MultipleNames d old name) else None
  | None => None
  end.

(** The tail of the loop body, for an already built [record]. *)
Definition register (t : tables) (record : WitRecord) : error + tables :=
  match pmatch DBI_REC_RE (r_name record) with
  | None => inr t
  | Some m =>
      match PyInt.int (group m 1) with
      | None => inl (InvalidLiteral (group m 1))
      | Some d =>
          let name := group m 2 in
          let kind := group m 3 in
          match name_conflict t d name with
          | Some e => inl e
          | None =>
              let slot := default ∅ (per_dbi t !! d) in
              match slot !! kind with
              | Some _ => inl (DuplicateKind kind d (r_name record))
              | None =>
                  inr (mkTables (<[d := <[kind := record]> slot]> (per_dbi t))
                                (<[d := name]> (names_by_dbi t)))
              end
          end
      end
  end.

(** The loop over the records of the source. *)
Fixpoint register_all (t : tables) (records : list WitRecord)
  : error + tables :=
  match records with
  | [] => inr t
  | r :: rs =>
      match register t r with
      | inl e => inl e
      | inr t' => register_all t' rs
      end
  end.

(** [sorted(per_dbi.keys())] *)
Definition sorted_keys (m : gmap Z (gmap string WitRecord)) : list Z :=
  merge_sort Z.le (map fst (map_to_list m)).

(** [for prev, cur in zip(dbis, dbis[1:])]: the first gap, if any. *)
Fixpoint first_gap (dbis : list Z) : option (Z * Z) :=
  match dbis with
  | prev :: (cur :: _) as tl =>
      if negb (cur =? prev + 1) then Some (prev, cur) else first_gap tl
  | _ => None
  end.

(** The loop that pairs the key and value record of every index. *)
Fixpoint build_entries (t : tables) (dbis : list Z)
  : error + list DbiEntry :=
  match dbis with
  | [] => inr []
  | d :: ds =>
      match per_dbi t !! d with
      | None => inl (KeyError d)
      | Some slot =>
          match slot !! "key", slot !! "value" with
          | Some k, Some v =>
              match names_by_dbi t !! d with
              | None => inl (KeyError d)
              | Some name =>
                  match build_entries t ds with
                  | inl e => inl e
                  | inr es =>
                      inr (mkDbiEntry d name (r_name k) (r_name v) k v :: es)
                  end
              end
          | _, _ => inl (MissingPair d slot)
          end
      end
  end.

(** Everything after the loop over the records. *)
Definition resolve (t : tables) : error + list DbiEntry :=
  if bool_decide (per_dbi t = ∅) then inl NoDbiRecords
  else
    let dbis := sorted_keys (per_dbi t) in
    match dbis with
    | [] => inl IndexError
    | d0 :: _ =>
        if negb (d0 =? 0) then inl NotFromZero
        else match first_gap dbis with
             | Some (prev, cur) => inl (SequenceGap prev cur)
             | None => build_entries t dbis
             end
    end.

Definition parse_dbi_entries (wit_text : string) : error + list DbiEntry :=
  match register_all no_tables (parse_records wit_text) with
  | inl e => inl e
  | inr t => resolve t
  end.

(** ** Manifest reconciler: [write_manifest] *)

(** One row of [csv.DictReader]: [dict(zip(fieldnames, row))], then the
    fieldnames the row is too short for are set to [restval = None].
    (The cells a row has beyond the fieldnames go under the key [None],
    which no lookup of the program asks for.) *)
Definition dict_row (fieldnames row : list string)
  : gmap string (option string) :=
  foldl (fun d k => <[k := None]> d)
        (foldl (fun d kv => <[kv.1 := Some kv.2]> d) ∅ (zip fieldnames row))
        (drop (length row) fieldnames).

(** [csv.DictReader(f)] over the rows of the file: the first row gives
    the fieldnames, empty rows are skipped. *)
Definition dict_reader (rows : list (list string))
  : list (gmap string (option string)) :=
  match rows with
  | [] => []
  | fieldnames :: data =>
      map (dict_row fieldnames)
          (filter (fun r => negb (bool_decide (r = []))) data)
  end.

(** [row.get(k) or ""] *)
Definition raw (row : gmap string (option string)) (k : string) : string :=
  match row !! k with Some (Some v) => v | _ => "" end.

(** [(row.get(k) or "").strip()] *)
Definition cell (row : gmap string (option string)) (k : string) : string :=
  Str.strip (raw row k).

(** [x or d] on strings. *)
Definition str_or (x d : string) : string :=
  if Str.is_empty x then d else x.

(** The body of the loop that fills [existing_meta]. *)
Definition remember (meta : gmap Z (string * string * string))
    (row : gmap string (option string))
  : gmap Z (string * string * string) :=
  match PyInt.int (cell row "dbi") with
  | None => meta
  | Some d =>
      let name := cell row "name" in
      let owner := cell row "owner" in
      let status := cell row "status" in
      if Str.is_empty name then meta
      else <[d := (name, str_or owner "runtime", str_or status "planned")]>
             meta
  end.

(** [existing_meta], from the prior manifest ([None]: no such file). *)
Definition load_meta (prior : option (list (list string)))
  : gmap Z (string * string * string) :=
  match prior with
  | None => ∅
  | Some rows => foldl remember ∅ (dict_reader rows)
  end.

Definition manifest_header : list string :=
  ["dbi"; "name"; "key_format"; "value_format"; "owner"; "status"].

Definition norm_name (e : DbiEntry) : string :=
  Str.replace_char "-" "_" (e_name e).

(** The [owner] and [status] of the row of [e]. *)
Definition curated (meta : gmap Z (string * string * string))
    (e : DbiEntry) : string * string :=
  let owner := "runtime" in
  let status := if dbi e =? 0 then "active" else "planned" in
  match meta !! dbi e with
  | Some (old_name, old_owner, old_status) =>
      if String.eqb old_name (norm_name e)
      then (old_owner, old_status) else (owner, status)
  | None => (owner, status)
  end.

(** The row [writer.writerow] is given for [e]. *)
Definition manifest_row (meta : gmap Z (string * string * string))
    (e : DbiEntry) : list string :=
  [ PyInt.str (dbi e);
    norm_name e;
    "wit:" +:+ key_record e;
    "wit:" +:+ value_record e;
    (curated meta e).1;
    (curated meta e).2 ].

(** The rows of the manifest file after [write_manifest]. *)
Definition write_manifest (entries : list DbiEntry)
    (prior : option (list (list string))) : list (list string) :=
  manifest_header :: map (manifest_row (load_meta prior)) entries.

(** The text of a row none of whose cells needs quoting. *)
Definition csv_line (row : list string) : string := Str.join "," row.

(** ** Layout and validator generator *)

Definition map_wit_type (wit_type c_name : string) : list string :=
  if String.eqb wit_type "s8" || String.eqb wit_type "u8"
     || String.eqb wit_type "bool"
  then ["    uint8_t " +:+ c_name +:+ ";"]
  else if String.eqb wit_type "s16" || String.eqb wit_type "u16"
  then ["    uint16_t " +:+ c_name +:+ ";"]
  else if String.eqb wit_type "s32" || String.eqb wit_type "u32"
  then ["    uint32_t " +:+ c_name +:+ ";"]
  else if String.eqb wit_type "s64" || String.eqb wit_type "u64"
          || String.eqb wit_type "timestamp"
  then ["    uint64_t " +:+ c_name +:+ ";"]
  else if String.eqb wit_type "f32"
  then ["    float " +:+ c_name +:+ ";"]
  else if String.eqb wit_type "f64" || String.eqb wit_type "score"
  then ["    double " +:+ c_name +:+ ";"]
  else if String.eqb wit_type "utf8" || String.eqb wit_type "bytes"
          || String.eqb wit_type "string"
  then ["    uint32_t " +:+ c_name +:+ "_offset;";
        "    uint32_t " +:+ c_name +:+ "_len;"]
  else ["    uint64_t " +:+ c_name +:+ "_unknown_layout;"].

Definition generate_record_struct (record : WitRecord) : list string :=
  ["typedef struct __attribute__((packed)) {"]
  ++ flat_map (fun f => map_wit_type (wit_type f) (field_c_name f))
              (fields record)
  ++ ["} SapWit_" +:+ record_c_name record +:+ ";"; ""].

(** The pattern [rf'\b{field.name}\b'].  A field name is group 1 of
    [FIELD_RE], a text over [a-z0-9-], which the pattern syntax reads as
    a literal; the replacement ["rec->" + c_name] has no backslash. *)
Definition word_re (name : string) : re := (Wordb ++ Lit name ++ Wordb)%re.

(** The loop that rewrites the rule, one field after the other. *)
Definition qualify (rule : string) (fs : list WitField) : string :=
  foldl (fun rule f =>
           if Str.contains (f_name f) rule
           then sub (word_re (f_name f)) ("rec->" +:+ field_c_name f) rule
           else rule)
        rule fs.

(** [if record.refine_rule:] *)
Definition active_rule (record : WitRecord) : option string :=
  match refine_rule record with
  | Some rule => if Str.is_empty rule then None else Some rule
  | None => None
  end.

Definition generate_validator (record : WitRecord) : list string :=
  let c := record_c_name record in
  ["static inline int sap_wit_validate_" +:+ c
     +:+ "(const void *data, uint32_t len) {";
   "    if (data == NULL || len == 0) return 0; /* Deletion or empty payload bypass */";
   "    if (len < sizeof(SapWit_" +:+ c +:+ ")) return -1; /* ERR_CORRUPT */"]
  ++ match active_rule record with
     | Some rule =>
         ["    const SapWit_" +:+ c +:+ " *rec = (const SapWit_" +:+ c
            +:+ " *" +:+ ")data;";
          "    if (!(" +:+ qualify rule (fields record)
            +:+ ")) return -1; /* Refinement violation! */"]
     | None => ["    (void)data; /* No refinement constraints */"]
     end
  ++ ["    return 0;"; "}"; ""].

(** ** Header and source writers *)

Definition dq : string := String Chr.dquote "".

Definition guard : string := "SAPLING_WIT_SCHEMA_DBIS_H".

(** The second loop of [write_c_header]: a struct and a validator for
    every record name not seen before. *)
Definition emit_record (seen : gset string) (record : WitRecord)
  : list string * gset string :=
  if bool_decide (r_name record ∈ seen) then ([], seen)
  else (generate_record_struct record ++ generate_validator record,
        {[r_name record]} ∪ seen).

Fixpoint emit_records (seen : gset string) (entries : list DbiEntry)
  : list string :=
  match entries with
  | [] => []
  | e :: es =>
      let k := emit_record seen (key_ast e) in
      let v := emit_record k.2 (value_ast e) in
      k.1 ++ v.1 ++ emit_records v.2 es
  end.

Definition define_line (e : DbiEntry) : string :=
  "#define SAP_WIT_DBI_" +:+ entry_c_name e +:+ " "
    +:+ PyInt.str (dbi e) +:+ "u".

Definition header_lines (entries : list DbiEntry) : list string :=
  [ "/* Auto-generated by tools/wit_schema_codegen.py; DO NOT EDIT. */";
    "#ifndef " +:+ guard;
    "#define " +:+ guard;
    "";
    "#include <stdint.h>";
    "#include <stddef.h>";
    "";
    "typedef struct {";
    "    uint32_t dbi;";
    "    const char *name;";
    "    const char *key_wit_record;";
    "    const char *value_wit_record;";
    "} SapWitDbiSchema;";
    "" ]
  ++ map define_line entries
  ++ [""]
  ++ emit_records ∅ entries
  ++ [ "";
       "extern const SapWitDbiSchema sap_wit_dbi_schema[];";
       "extern const uint32_t sap_wit_dbi_schema_count;";
       "";
       "#endif /* " +:+ guard +:+ " */";
       "" ].

(** The text [write_c_header] writes. *)
Definition write_c_header (entries : list DbiEntry) : string :=
  Str.join (String Chr.nl "") (header_lines entries).

Definition table_line (e : DbiEntry) : string :=
  "    {" +:+ PyInt.str (dbi e) +:+ "u, "
    +:+ dq +:+ norm_name e +:+ dq +:+ ", "
    +:+ dq +:+ key_record e +:+ dq +:+ ", "
    +:+ dq +:+ value_record e +:+ dq +:+ "},".

Definition source_lines (entries : list DbiEntry) (rel_header : string)
  : list string :=
  [ "/* Auto-generated by tools/wit_schema_codegen.py; DO NOT EDIT. */";
    "#include " +:+ dq +:+ rel_header +:+ dq;
    "";
    "const SapWitDbiSchema sap_wit_dbi_schema[] = {" ]
  ++ map table_line entries
  ++ [ "};";
       "";
       "const uint32_t sap_wit_dbi_schema_count = (uint32_t)(sizeof(sap_wit_dbi_schema) / sizeof(sap_wit_dbi_schema[0]));";
       "" ].

(** The text [write_c_source] writes. *)
Definition write_c_source (entries : list DbiEntry) (rel_header : string)
  : string :=
  Str.join (String Chr.nl "") (source_lines entries rel_header).

(** ** The manifest file: [csv.writer] and [csv.reader]

    The manifest is written through [csv.writer(f, lineterminator="\n")]
    and read through [csv.DictReader(f)], both with the dialect [excel]
    and on a file opened with [newline=""], so that the text of the file
    is what the writer produces and what the reader is given. *)

Module Csv.

(** The characters that make the writer quote a field: the delimiter,
    the quote character and the characters of the line terminator.  With
    the line terminator ["\n"] a carriage return is not one of them. *)
Definition special (c : ascii) : bool :=
  Ascii.eqb c "," || Ascii.eqb c Chr.dquote || Ascii.eqb c Chr.nl.

Fixpoint has_special (s : string) : bool :=
  match s with
  | EmptyString => false
  | String c s' => special c || has_special s'
  end.

(** A quote inside a quoted field is written twice. *)
Fixpoint double_quotes (s : string) : string :=
  match s with
  | EmptyString => EmptyString
  | String c s' =>
      if Ascii.eqb c Chr.dquote
      then String Chr.dquote (String Chr.dquote (double_quotes s'))
      else String c (double_quotes s')
  end.

Definition write_field (s : string) : string :=
  if has_special s
  then String Chr.dquote (double_quotes s +:+ String Chr.dquote "")
  else s.

(** [writer.writerow(row)]; a row made of one empty field is written as
    a pair of quotes. *)
Definition write_row (row : list string) : string :=
  match row with
  | [EmptyString] => String Chr.dquote (String Chr.dquote (String Chr.nl ""))
  | _ => Str.join "," (map write_field row) +:+ String Chr.nl ""
  end.

(** The text of the file after the rows have been written. *)
Definition write (rows : list (list string)) : string :=
  fold_right (fun row text => write_row row +:+ text) "" rows.

(** The states of the reader within a record. *)
Inductive state : Type :=
| StartRecord | StartField | InField | InQuotedField | QuoteInQuotedField.

(** The reader within a record: its state, the fields saved so far and
    the characters of the field being read. *)
Record parser : Type := Parser {
  p_state : state;
  p_fields : list string;
  p_field : string
}.

Definition reset : parser := Parser StartRecord [] "".

Definition add_char (c : ascii) (st : state) (p : parser) : parser :=
  Parser st (p_fields p) (p_field p +:+ String c "").

Definition save_field (st : state) (p : parser) : parser :=
  Parser st (p_fields p ++ [p_field p]) "".

(** One character that is not a line break. *)
Definition step (p : parser) (c : ascii) : parser :=
  match p_state p with
  | StartRecord | StartField =>
      if Ascii.eqb c Chr.dquote
      then Parser InQuotedField (p_fields p) (p_field p)
      else if Ascii.eqb c "," then save_field StartField p
      else add_char c InField p
  | InField =>
      if Ascii.eqb c "," then save_field StartField p
      else add_char c InField p
  | InQuotedField =>
      if Ascii.eqb c Chr.dquote
      then Parser QuoteInQuotedField (p_fields p) (p_field p)
      else add_char c InQuotedField p
  | QuoteInQuotedField =>
      if Ascii.eqb c Chr.dquote then add_char c InQuotedField p
      else if Ascii.eqb c "," then save_field StartField p
      else add_char c InField p
  end.

Definition is_break (c : ascii) : bool :=
  Ascii.eqb c Chr.nl || Ascii.eqb c "013".

(** [c] is the carriage return of a line end [\r\n]. *)
Definition cr_of_crlf (c : ascii) (s' : string) : bool :=
  Ascii.eqb c "013"
  && match s' with
     | String c' _ => Ascii.eqb c' Chr.nl
     | EmptyString => false
     end.

(** The rows the reader returns for the text [s].  The reader takes the
    file line by line, a line ending with a line feed, a carriage return
    or the two in this order.  Inside a quoted field the characters of
    the line end belong to the field; anywhere else the line end ends
    the record: the field being read is saved, and a line end at the
    start of a record gives an empty row.  At the end of the text a
    record that has been started is returned with the field being
    read. *)
Fixpoint read_from (p : parser) (s : string) : list (list string) :=
  match s with
  | EmptyString =>
      match p_state p with
      | StartRecord => []
      | _ => [p_fields p ++ [p_field p]]
      end
  | String c s' =>
      if negb (is_break c) then read_from (step p c) s'
      else
        match p_state p with
        | InQuotedField => read_from (add_char c InQuotedField p) s'
        | st =>
            if cr_of_crlf c s' then read_from p s'
            else match st with
                 | StartRecord => []
                 | _ => p_fields p ++ [p_field p]
                 end :: read_from reset s'
        end
  end.

Definition read (s : string) : list (list string) := read_from reset s.




End Csv.

(** ** [main]

    The command line names four distinct files: the source that is read
    and the three outputs.  An output file is [None] until it is
    written. *)

Record files : Type := mkFiles {
  manifest : option string;
  header : option string;
  source : option string
}.

Inductive result : Type :=
| Pass (entries : nat)       (* "wit-schema: PASS (entries=...)", returns 0 *)
| FileNotFound               (* "wit-schema: FAIL: file not found", returns 1 *)
| Fail (e : error).          (* "wit-schema: FAIL: {exc}", returns 1 *)

Definition exit_code (r : result) : Z :=
  match r with Pass _ => 0 | _ => 1 end.

(** The three writes, in the order of the [try] block. *)
Definition do_write_manifest (entries : list DbiEntry) (fs : files) : files :=
  mkFiles (Some (Csv.write (write_manifest entries (Csv.read <$> manifest fs))))
          (header fs) (source fs).

Definition do_write_c_header (entries : list DbiEntry) (fs : files) : files :=
  mkFiles (manifest fs) (Some (write_c_header entries)) (source fs).

Definition do_write_c_source (entries : list DbiEntry) (rel_header : string)
    (fs : files) : files :=
  mkFiles (manifest fs) (header fs) (Some (write_c_source entries rel_header)).

(** [wit] is the text of the [--wit] file ([None]: it does not exist),
    [header_path] the [--header] argument as it goes into [#include]. *)
Definition main (wit : option string) (header_path : string) (fs : files)
  : result * files :=
  match wit with
  | None => (FileNotFound, fs)
  | Some wit_text =>
      match parse_dbi_entries wit_text with
      | inl e => (Fail e, fs)
      | inr entries =>
          (Pass (length entries),
           do_write_c_source entries header_path
             (do_write_c_header entries (do_write_manifest entries fs)))
      end
  end.

(** ** The layout behind the generated struct and validator *)

Inductive ctype : Type :=
| uint8_t | uint16_t | uint32_t | uint64_t | c_float | c_double.

Definition sizeof (t : ctype) : N :=
  match t with
  | uint8_t => 1 | uint16_t => 2 | uint32_t => 4 | uint64_t => 8
  | c_float => 4 | c_double => 8
  end%N.

Definition ctype_name (t : ctype) : string :=
  match t with
  | uint8_t => "uint8_t" | uint16_t => "uint16_t" | uint32_t => "uint32_t"
  | uint64_t => "uint64_t" | c_float => "float" | c_double => "double"
  end.

(** The members [map_wit_type] declares, as type and member name. *)
Definition layout_cells (wit_type c_name : string) : list (ctype * string) :=
  if String.eqb wit_type "s8" || String.eqb wit_type "u8"
     || String.eqb wit_type "bool"
  then [(uint8_t, c_name)]
  else if String.eqb wit_type "s16" || String.eqb wit_type "u16"
  then [(uint16_t, c_name)]
  else if String.eqb wit_type "s32" || String.eqb wit_type "u32"
  then [(uint32_t, c_name)]
  else if String.eqb wit_type "s64" || String.eqb wit_type "u64"
          || String.eqb wit_type "timestamp"
  then [(uint64_t, c_name)]
  else if String.eqb wit_type "f32"
  then [(c_float, c_name)]
  else if String.eqb wit_type "f64" || String.eqb wit_type "score"
  then [(c_double, c_name)]
  else if String.eqb wit_type "utf8" || String.eqb wit_type "bytes"
          || String.eqb wit_type "string"
  then [(uint32_t, c_name +:+ "_offset"); (uint32_t, c_name +:+ "_len")]
  else [(uint64_t, c_name +:+ "_unknown_layout")].

(** A member declaration of the generated struct. *)
Definition member_decl (m : ctype * string) : string :=
  "    " +:+ ctype_name m.1 +:+ " " +:+ m.2 +:+ ";".

(** [sizeof(SapWit_<record>)]: the struct is packed, its size is the sum
    of the sizes of its members. *)
Definition record_cells (record : WitRecord) : list (ctype * string) :=
  flat_map (fun f => layout_cells (wit_type f) (field_c_name f))
           (fields record).

Definition sizeof_record (record : WitRecord) : N :=
  foldr (fun m acc => (sizeof m.1 + acc)%N) 0%N (record_cells record).

(** The statements [generate_validator] puts in the function body. *)
Inductive stmt : Type :=
| ReturnIfEmpty                  (* if (data == NULL || len == 0) return 0; *)
| ReturnIfShort (c : string)     (* if (len < sizeof(SapWit_c)) return -1; *)
| DeclareRec (c : string)        (* const SapWit_c *rec = (const SapWit_c * )data; *)
| ReturnIfNot (cond : string)    (* if (!(cond)) return -1; *)
| DiscardData                    (* (void)data; *)
| Return0.                       (* return 0; *)

Definition render (s : stmt) : string :=
  match s with
  | ReturnIfEmpty =>
      "    if (data == NULL || len == 0) return 0; /* Deletion or empty payload bypass */"
  | ReturnIfShort c =>
      "    if (len < sizeof(SapWit_" +:+ c +:+ ")) return -1; /* ERR_CORRUPT */"
  | DeclareRec c =>
      "    const SapWit_" +:+ c +:+ " *rec = (const SapWit_" +:+ c +:+ " *" +:+ ")data;"
  | ReturnIfNot cond =>
      "    if (!(" +:+ cond +:+ ")) return -1; /* Refinement violation! */"
  | DiscardData => "    (void)data; /* No refinement constraints */"
  | Return0 => "    return 0;"
  end.

Definition validator_body (record : WitRecord) : list stmt :=
  [ReturnIfEmpty; ReturnIfShort (record_c_name record)]
  ++ match active_rule record with
     | Some rule =>
         [DeclareRec (record_c_name record);
          ReturnIfNot (qualify rule (fields record))]
     | None => [DiscardData]
     end
  ++ [Return0].

(** ** The generated C, read back

    The struct and the validator are C text.  What a call of the
    validator returns is read off the lines the generator wrote: the
    size of the struct from its member declarations, the returns from
    the statements of the function.  The value of the rewritten
    refinement is C's business and stays a parameter. *)

(** The characters of a C identifier. *)
Definition c_ident (c : ascii) : bool :=
  Chr.is_lower c || Chr.is_upper c || Chr.is_digit c || Ascii.eqb c "_".

(** [s] without its end [suffix]. *)
Definition chop (suffix s : string) : option string :=
  let n := (String.length s - String.length suffix)%nat in
  if (String.length suffix <=? String.length s)%nat
     && String.eqb (Str.drop n s) suffix
  then Some (Str.take n s) else None.

(** The text of [line] between [pre] and [suffix]. *)
Definition between (pre suffix line : string) : option string :=
  match Str.strip_prefix pre line with
  | Some rest => chop suffix rest
  | None => None
  end.

Definition c_types : list ctype :=
  [uint8_t; uint16_t; uint32_t; uint64_t; c_float; c_double].

(** The member a line of the struct declares, [    <type> <name>;]. *)
Definition read_member (line : string) : option (ctype * string) :=
  head (omap (fun t =>
                match between ("    " +:+ ctype_name t +:+ " ") ";" line with
                | Some name => Some (t, name)
                | None => None
                end)
             c_types).

Definition struct_members (lines : list string) : list (ctype * string) :=
  omap read_member lines.

(** [sizeof] of a packed struct: the sum of the sizes of its members. *)
Definition struct_size (lines : list string) : N :=
  foldr (fun m acc => (sizeof m.1 + acc)%N) 0%N (struct_members lines).

(** A read of a member through [rec]: [rec-><identifier>]. *)
Definition ACCESS_RE : re := (Wordb ++ Lit "rec->" ++ Grp 1 (Star c_ident))%re.

(** The members a condition reads through [rec]. *)
Definition accesses (cond : string) : list string :=
  map (fun m => group m 1) (finditer ACCESS_RE cond).

(** Every member [cond] reads through [rec] is one of [members]. *)
Definition declared (members : list (ctype * string)) (cond : string) : bool :=
  forallb (fun a => existsb (String.eqb a) (map snd members)) (accesses cond).

(** The condition of a line [    if (!(<condition>)) return -1; ...]. *)
Definition condition (line : string) : option string :=
  between "    if (!(" ")) return -1; /* Refinement violation! */" line.

(** What a call of the validator tells its caller: the return statement
    it leaves through, named after the comment on that statement. *)
Inductive outcome : Type :=
| Empty | Corrupt | RefinementViolation | Valid.


(** The statement a line of the function is; [None] for the lines
    that do nothing in a call (the signature, the declaration of [rec],
    the cast of [data] to void, the closing brace). *)
Definition read_stmt (line : string) : option stmt :=
  if String.eqb line (render ReturnIfEmpty) then Some ReturnIfEmpty
  else if String.eqb line (render Return0) then Some Return0
  else
    match between "    if (len < sizeof(SapWit_"
                  ")) return -1; /* ERR_CORRUPT */" line with
    | Some c => Some (ReturnIfShort c)
    | None =>
        match condition line with
        | Some cond => Some (ReturnIfNot cond)
        | None => None
        end
    end.

Section Validator.

(** [valid_c cond]: the condition is a C expression the compiler
    accepts in the function; [holds cond data]: its value once [data] is
    viewed as the struct.  C's semantics of expressions is not part of
    the tool. *)
Variable valid_c : string -> bool.
Variable holds : string -> list Byte.byte -> bool.

(** The value of [sizeof(SapWit_c)]. *)
Variable size : N.

(** Running the statements on [data] ([None]: the null pointer) and
    [len]; [None] if control falls off the end. *)
Fixpoint run (body : list stmt) (data : option (list Byte.byte)) (len : N)
  : option outcome :=
  match body with
  | [] => None
  | s :: body' =>
      match s with
      | ReturnIfEmpty =>
          match data with
          | None => Some Empty
          | Some _ => if (len =? 0)%N then Some Empty else run body' data len
          end
      | ReturnIfShort _ =>
          if (len <? size)%N then Some Corrupt else run body' data len
      | ReturnIfNot cond =>
          match data with
          | Some buf =>
              if negb (holds cond buf) then Some RefinementViolation
              else run body' data len
          | None => None
          end
      | DeclareRec _ | DiscardData => run body' data len
      | Return0 => Some Valid
      end
  end.

(** The function compiles: every condition reads only members the
    struct declares, and is a C expression. *)
Definition compiles (members : list (ctype * string)) (body : list stmt)
  : bool :=
  forallb (fun s =>
             match s with
             | ReturnIfNot cond => declared members cond && valid_c cond
             | _ => true
             end)
          body.

End Validator.

(** A call of the validator generated for [record], read off the text
    of its struct and of its function; [None] when the function is not
    C. *)
Definition validate (valid_c : string -> bool)
    (holds : string -> list Byte.byte -> bool)
    (record : WitRecord) (data : option (list Byte.byte)) (len : N)
  : option outcome :=
  let struct := generate_record_struct record in
  let body := omap read_stmt (generate_validator record) in
  if compiles valid_c (struct_members struct) body
  then run holds (struct_size struct) body data len
  else None.

(** The type tokens [map_wit_type] knows. *)
Definition known_types : list string :=
  ["s8"; "u8"; "bool"; "s16"; "u16"; "s32"; "u32"; "s64"; "u64";
   "timestamp"; "f32"; "f64"; "score"; "utf8"; "bytes"; "string"].

(** The first line of a generated validator. *)
Definition validator_signature (record : WitRecord) : string :=
  "static inline int sap_wit_validate_" +:+ record_c_name record
    +:+ "(const void *data, uint32_t len) {".

(** ** What it means for a field to be written in the source *)

(** A non-empty run of [a-z0-9-]. *)
Definition is_ident (s : string) : Prop :=
  s ≠ "" ∧ Str.all Chr.ident s = true.

(** A run of whitespace, possibly empty. *)
Definition is_blank (s : string) : Prop :=
  Str.all Chr.is_space s = true.

(** A type token: an identifier, with an optional suffix [<...>] kept as
    it is. *)
Definition is_type_token (t : string) : Prop :=
  ∃ base, is_ident base
    ∧ (t = base
       ∨ ∃ arg, arg ≠ "" ∧ Str.all (Chr.is_not ">") arg = true
                ∧ t = base +:+ "<" +:+ arg +:+ ">").

(** The text [pre] ends where a line starts. *)
Definition line_start (pre : string) : Prop :=
  Str.last_char None pre = None ∨ Str.last_char None pre = Some Chr.nl.

(** [body] has, at the start of one of its lines, the fragment
    [<field-name>: <type-token>,] for the field [f], whitespace being free
    around the name, the colon and the type. *)
Definition written_in (f : WitField) (body : string) : Prop :=
  ∃ pre w1 w2 w3 w4 post,
    body = pre +:+ w1 +:+ f_name f +:+ w2 +:+ ":" +:+ w3
               +:+ wit_type f +:+ w4 +:+ "," +:+ post
    ∧ line_start pre
    ∧ is_blank w1 ∧ is_blank w2 ∧ is_blank w3 ∧ is_blank w4
    ∧ is_ident (f_name f) ∧ is_type_token (wit_type f).

(** [wit_text] has the block [record <name> { <body> }] of [record]. *)
Definition block_in (record : WitRecord) (body wit_text : string) : Prop :=
  ∃ pre w1 w2 post,
    wit_text = pre +:+ "record" +:+ w1 +:+ r_name record +:+ w2
                   +:+ "{" +:+ body +:+ "}" +:+ post
    ∧ w1 ≠ "" ∧ is_blank w1 ∧ is_blank w2
    ∧ Str.all (Chr.is_not "}") body = true.

(** A label: group 2 of [DBI_REC_RE], [[a-z0-9][a-z0-9-]*]. *)
Definition is_label (s : string) : Prop :=
  ∃ c t, s = String c t ∧ Chr.ident_head c = true
         ∧ Str.all Chr.ident t = true.

(** What the loop of [parse_dbi_entries] keeps true of its tables: the
    indices are non-negative and the names are labels. *)
Definition tables_ok (t : tables) : Prop :=
  (∀ d slot, per_dbi t !! d = Some slot → 0 ≤ d)
  ∧ (∀ d n, names_by_dbi t !! d = Some n → is_label n).

(** A cell as the reconciler keeps it: trimmed and not empty. *)
Definition clean (s : string) : Prop :=
  Str.strip s = s ∧ Str.is_empty s = false.



(** The rows [csv.DictReader] yields for the prior manifest. *)
Definition prior_rows (prior : option (list (list string)))
  : list (gmap string (option string)) :=
  match prior with
  | None => []
  | Some rows => dict_reader rows
  end.

(** A prior row counts for the index [d] when its dbi cell reads as [d]
    and its trimmed name is not empty. *)
Definition usable (d : Z) (row : gmap string (option string)) : bool :=
  bool_decide (PyInt.int (cell row "dbi") = Some d)
  && negb (Str.is_empty (cell row "name")).

(** The prior row for the index [d]: the last usable one. *)
Definition prior_row (prior : option (list (list string))) (d : Z)
  : option (gmap string (option string)) :=
  last (filter (λ row, usable d row) (prior_rows prior)).

(** What [existing_meta] keeps of a row. *)
Definition kept (row : gmap string (option string))
  : string * string * string :=
  (cell row "name", str_or (cell row "owner") "runtime",
   str_or (cell row "status") "planned").

(** The owner and status the reconciler gives [e], read off the prior
    rows. *)
Definition reconciled (prior : option (list (list string))) (e : DbiEntry)
  : string * string :=
  match prior_row prior (dbi e) with
  | Some row =>
      if String.eqb (cell row "name") (norm_name e)
      then (str_or (cell row "owner") "runtime",
            str_or (cell row "status") "planned")
      else ("runtime", if dbi e =? 0 then "active" else "planned")
  | None => ("runtime", if dbi e =? 0 then "active" else "planned")
  end.


(** ** Sample sources *)

(** Two indices that carry the same label. *)
Definition twin_wit : string :=
  "record dbi0-state-key { id: u64, }
record dbi0-state-value { body: bytes, }
record dbi1-state-key { id: u64, }
record dbi1-state-value { body: bytes, }
".

Definition twin_entries : list DbiEntry :=
  Eval vm_compute in
    match parse_dbi_entries twin_wit with inr es => es | inl _ => [] end.

(** A complete pair for index 0, a key for index 2, nothing for 1. *)
Definition gap_wit : string :=
  "record dbi0-state-key { namespace: utf8, }
record dbi0-state-value { body: bytes, }
record dbi2-foo-key { id: u64, }
".

Definition no_files : files := mkFiles None None None.

(** A record body whose second line is not a field declaration. *)
Definition lenient_body : string :=
  "
    first: u8,
    second u16,
    third: list<u8>,
".

(** A value record with a refinement, as in the test of the parser. *)
Definition score_record : WitRecord :=
  mkWitRecord "dbi0-app-state-value" (Some "confidence >= 0.0")
    [mkWitField "body" "bytes"; mkWitField "revision" "s64";
     mkWitField "updated-at" "timestamp"; mkWitField "confidence" "score"].

(** The two records quoted in the specification. *)
Definition state_wit : string :=
  "record dbi0-state-key { namespace: utf8, key: utf8 }
record dbi0-state-value { body: bytes, revision: s64 }
".

Definition state_entries : list DbiEntry :=
  Eval vm_compute in
    match parse_dbi_entries state_wit with inr es => es | inl _ => [] end.

(** A prior manifest whose owner for index 0, a quoted field, holds a
    carriage return between [a] and [b]. *)
Definition cr_manifest : string :=
  "dbi,name,key_format,value_format,owner,status" +:+ String Chr.nl ""
  +:+ "0,state,wit:dbi0-state-key,wit:dbi0-state-value,"
  +:+ String Chr.dquote ("a" +:+ String "013" "b")
  +:+ String Chr.dquote ",active" +:+ String Chr.nl "".

Definition cr_files : files := mkFiles (Some cr_manifest) None None.


(** A prior manifest whose row for index 0 has a padded owner and an
    empty status. *)
Definition padded_manifest : list (list string) :=
  [ manifest_header;
    ["0"; "state"; "wit:dbi0-state-key"; "wit:dbi0-state-value";
     " ops "; ""] ].

(** A prior manifest of clean cells. *)
Definition curated_manifest : list (list string) :=
  [ manifest_header;
    ["0"; "state"; "wit:dbi0-state-key"; "wit:dbi0-state-value";
     "storage-team"; "deprecated"] ].

Definition curated_row : gmap string (option string) :=
  dict_row manifest_header
    ["0"; "state"; "wit:dbi0-state-key"; "wit:dbi0-state-value";
     "storage-team"; "deprecated"].

Definition padded_row : gmap string (option string) :=
  dict_row manifest_header
    ["0"; "state"; "wit:dbi0-state-key"; "wit:dbi0-state-value";
     " ops "; ""].

(** The entry of [state_wit]. *)
Definition state_entry : DbiEntry :=
  Eval vm_compute in
    hd (mkDbiEntry 0 "" "" "" (mkWitRecord "" None [])
          (mkWitRecord "" None []))
       state_entries.



(** A value record with the fields [at] and [updated-at] and a refinement
    on [updated-at]. *)
Definition audit_wit : string :=
  "record dbi0-audit-key { id: u64, }
/// @refine(updated-at > 0)
record dbi0-audit-value {
  at: u8,
  updated-at: timestamp,
}
".

Definition audit_value : WitRecord :=
  mkWitRecord "dbi0-audit-value" (Some "updated-at > 0")
    [mkWitField "at" "u8"; mkWitField "updated-at" "timestamp"].

(** * Further definitions *)

(** ** One substitution step of the validator generator *)

(** [\b] between the character [pv] and the character [nx]. *)
Definition boundary (pv nx : option ascii) : bool :=
  xorb (word_at pv) (word_at nx).

(** [name] stands at the head of [s], with [\b] on both of its sides,
    [pv] being the character before [s]. *)
Definition word_here (name : string) (pv : option ascii) (s : string)
  : Prop :=
  ∃ rest, s = name +:+ rest
          ∧ boundary pv (next s) = true
          ∧ boundary (Str.last_char pv name) (next rest) = true.

(** [Rewritten name repl pv s out]: reading [s] from the left, [pv] being
    the character before it, [out] has [repl] for every occurrence of
    [name] met between two [\b] and the characters of [s] everywhere
    else; after an occurrence the reading resumes behind it. *)
Inductive Rewritten (name repl : string)
  : option ascii → string → string → Prop :=
| rw_end (pv : option ascii) : Rewritten name repl pv "" ""
| rw_keep (pv : option ascii) (c : ascii) (s out : string) :
    ¬ word_here name pv (String c s) →
    Rewritten name repl (Some c) s out →
    Rewritten name repl pv (String c s) (String c out)
| rw_hit (pv : option ascii) (rest out : string) :
    word_here name pv (name +:+ rest) →
    Rewritten name repl (Str.last_char pv name) rest out →
    Rewritten name repl pv (name +:+ rest) (repl +:+ out).

(** The rule after the loop over the fields: one [Rewritten] step per
    field, in the order of declaration, each on the result of the one
    before. *)
Inductive Qualified : list WitField → string → string → Prop :=
| q_nil (rule : string) : Qualified [] rule rule
| q_cons (f : WitField) (fs : list WitField) (rule mid out : string) :
    Rewritten (f_name f) ("rec->" +:+ field_c_name f) None rule mid →
    Qualified fs mid out →
    Qualified (f :: fs) rule out.

(** The text a list of pieces stands for once every match is replaced. *)
Definition spliced (repl : string) (ps : list piece) : string :=
  fold_right
    (fun p acc => match p with
                  | Gap c => String c acc
                  | Hit _ => repl +:+ acc
                  end)
    "" ps.


(** ** Annotations and record names in the source *)

(** [wit_text] has the line [/// @refine(<rule>)] and, right behind the
    line break that ends it, the block of [record]. *)
Definition annotated_in (record : WitRecord) (rule wit_text : string)
  : Prop :=
  ∃ pre b1 w1 w2 b2 w3 w4 body post,
    wit_text = pre +:+ b1 +:+ "///" +:+ w1 +:+ "@refine(" +:+ rule +:+ ")"
                   +:+ w2 +:+ String Chr.nl "" +:+ b2 +:+ "record" +:+ w3
                   +:+ r_name record +:+ w4 +:+ "{" +:+ body +:+ "}"
                   +:+ post
    ∧ line_start pre
    ∧ Str.all Chr.blank b1 = true ∧ Str.all Chr.blank b2 = true
    ∧ is_blank w1 ∧ is_blank w2 ∧ is_blank w3 ∧ is_blank w4
    ∧ rule ≠ "" ∧ Str.all (Chr.is_not ")") rule = true.

(** [name] is [dbi<digits>-<label>-<kind>], the digits reading as [d]. *)
Definition dbi_record_name (d : Z) (label kind name : string) : Prop :=
  ∃ digits,
    name = "dbi" +:+ digits +:+ "-" +:+ label +:+ "-" +:+ kind
    ∧ Str.all Chr.is_digit digits = true
    ∧ PyInt.int digits = Some d.

(** Every record kept in the tables is named after its index, the label
    of the index and its kind. *)
Definition tables_named (t : tables) : Prop :=
  ∀ d slot kind r,
    per_dbi t !! d = Some slot → slot !! kind = Some r →
    ∃ label, names_by_dbi t !! d = Some label
             ∧ dbi_record_name d label kind (r_name r).

(** The text of the parser test [test_regex.py]. *)
Definition scored_wit : string :=
  "
  /// @refine(confidence >= 0.0)
  record dbi0-app-state-value {
    body: bytes,
    revision: s64,
    updated-at: timestamp,
    confidence: score,
  }
".

(** Every record kept in the tables is one of [records]. *)
Definition tables_from (records : list WitRecord) (t : tables) : Prop :=
  ∀ d slot kind r,
    per_dbi t !! d = Some slot → slot !! kind = Some r → r ∈ records.

(** ** The manifest checker: [tools/check_dbi_manifest.py] *)

(** The values a row of [csv.DictReader] can hold: a cell, [None] for a
    fieldname the row is too short for, and the list of the cells a row
    has beyond the fieldnames. *)
Inductive pyval : Type :=
| VStr (s : string)
| VNone
| VList (l : list string).

(** [d[k] = v] on a dict kept as the list of its items, in insertion
    order: an existing key keeps its place. *)
Definition od_set (k : option string) (v : pyval)
    (d : list (option string * pyval)) : list (option string * pyval) :=
  if bool_decide (k ∈ d.*1)
  then map (λ kv, if bool_decide (kv.1 = k) then (k, v) else kv) d
  else d ++ [(k, v)].

(** [d[k]], [None] standing for the [KeyError]. *)
Definition od_get (k : string) (d : list (option string * pyval))
  : option pyval :=
  snd <$> find (λ kv, bool_decide (kv.1 = Some k)) d.

(** [row.items()] for a row of [csv.DictReader], surplus cells under the
    key [None] included. *)
Definition dict_items (fieldnames row : list string)
  : list (option string * pyval) :=
  let d := foldl (λ d kv, od_set (Some kv.1) (VStr kv.2) d) []
                 (zip fieldnames row) in
  if (length fieldnames <? length row)%nat
  then od_set None (VList (drop (length fieldnames) row)) d
  else foldl (λ d k, od_set (Some k) VNone d) d
             (drop (length row) fieldnames).

(** [list(reader)] *)
Definition full_reader (rows : list (list string))
  : list (list (option string * pyval)) :=
  match rows with
  | [] => []
  | fieldnames :: data =>
      map (dict_items fieldnames)
          (filter (λ r, negb (bool_decide (r = []))) data)
  end.

(** The failures [fail] reports. *)
Inductive mfail : Type :=
| MUsage
| MNotFound
| MBadHeader (got : option (list string))
    (* "expected header {required}, got {reader.fieldnames}" *)
| MNoEntries
| MEmptyCell (line : nat) (k : option string)   (* "line {idx}: empty {k}" *)
| MNotInteger (line : nat) (v : string)
| MNegative (line : nat)
| MDuplicate (line : nat) (d : Z)
| MZeroRequired
| MGap (prev cur : Z).

(** What a run of the checker ends with; [MCrash] is an exception that
    [main] does not catch. *)
Inductive mresult : Type :=
| MPass (entries : nat) (max_dbi : Z)
| MFail (e : mfail)
| MCrash.

(** [not (v or "").strip()]; [None] when [v] is a non-empty list, which
    has no [strip]. *)
Definition blank_cell (v : pyval) : option bool :=
  match v with
  | VStr s => Some (Str.is_empty (Str.strip s))
  | VNone => Some true
  | VList [] => Some true
  | VList (_ :: _) => None
  end.

(** The loop over [row.items()]: how it ends, if it does not run through. *)
Fixpoint first_blank (idx : nat) (items : list (option string * pyval))
  : option mresult :=
  match items with
  | [] => None
  | (k, v) :: rest =>
      match blank_cell v with
      | None => Some MCrash
      | Some true => Some (MFail (MEmptyCell idx k))
      | Some false => first_blank idx rest
      end
  end.

(** The loop over the rows, from line [idx] on, with the indices [seen]
    so far. *)
Fixpoint check_rows (idx : nat) (seen : gset Z)
    (rows : list (list (option string * pyval))) : mresult + gset Z :=
  match rows with
  | [] => inr seen
  | row :: rest =>
      match first_blank idx row with
      | Some r => inl r
      | None =>
          match od_get "dbi" row with
          | Some (VStr s) =>
              match PyInt.int s with
              | None => inl (MFail (MNotInteger idx s))
              | Some d =>
                  if d <? 0 then inl (MFail (MNegative idx))
                  else if bool_decide (d ∈ seen)
                  then inl (MFail (MDuplicate idx d))
                  else check_rows (S idx) ({[d]} ∪ seen) rest
              end
          | _ => inl MCrash
          end
      end
  end.

(** [main] of the checker on the arguments after the program name;
    [read path] is the content of the file as rows, [None] if there is
    no such file. *)
Definition check_manifest_main (args : list string)
    (read : string → option (list (list string))) : mresult :=
  match args with
  | [path] =>
      match read path with
      | None => MFail MNotFound
      | Some rows =>
          if negb (bool_decide (head rows = Some manifest_header))
          then MFail (MBadHeader (head rows))
          else
            let data := full_reader rows in
            match data with
            | [] => MFail MNoEntries
            | _ :: _ =>
                match check_rows 2 ∅ data with
                | inl r => r
                | inr seen =>
                    let sorted_dbis := merge_sort Z.le (elements seen) in
                    match sorted_dbis with
                    | [] => MCrash
                    | d0 :: _ =>
                        if negb (d0 =? 0) then MFail MZeroRequired
                        else match first_gap sorted_dbis with
                             | Some (prev, cur) => MFail (MGap prev cur)
                             | None =>
                                 MPass (length data)
                                       (List.last sorted_dbis 0)
                             end
                    end
                end
            end
      end
  | _ => MFail MUsage
  end.

(** The exit status of the checker. *)
Definition check_exit (r : mresult) : Z :=
  match r with MPass _ _ => 0 | _ => 1 end.

(** The data rows of a manifest file: the rows after the first that are
    not empty. *)
Definition data_rows (rows : list (list string)) : list (list string) :=
  filter (λ r, negb (bool_decide (r = []))) (tail rows).

(** A row the checker has nothing against: six cells, none blank. *)
Definition full_row (row : list string) : Prop :=
  length row = 6%nat
  ∧ ∀ c, c ∈ row → Str.is_empty (Str.strip c) = false.

(** The dbi cell of a row reads as [d]. *)
Definition row_dbi (row : list string) (d : Z) : Prop :=
  ∃ c, head row = Some c ∧ PyInt.int c = Some d.



(** The files a run on [state_wit] leaves over [cr_files]. *)
Definition cr_after : files :=
  Eval vm_compute in
    (main (Some state_wit) "gen/wit_schema_dbis.h" cr_files).2.

(** A manifest whose rows are not in ascending order. *)
Definition unsorted_manifest : list (list string) :=
  [ manifest_header;
    ["1"; "log"; "wit:dbi1-log-key"; "wit:dbi1-log-value";
     "runtime"; "planned"];
    [" 0"; "state"; "wit:dbi0-state-key"; "wit:dbi0-state-value";
     "runtime"; "active"] ].

(** A manifest whose dbi cell starts with U+001C, which [str.strip]
    drops and [int] does not. *)
Definition separator_manifest : list (list string) :=
  [ manifest_header;
    [String "028" "0"; "state"; "wit:dbi0-state-key";
     "wit:dbi0-state-value"; "runtime"; "active"] ].

(** ** The blocks of the generated header *)

(** The struct and the validator of a record, as [write_c_header] emits
    them. *)
Definition record_block (record : WitRecord) : list string :=
  generate_record_struct record ++ generate_validator record.

(** The records of the entries, in the order the second loop of
    [write_c_header] visits them. *)
Definition entry_records (entries : list DbiEntry) : list WitRecord :=
  flat_map (λ e, [key_ast e; value_ast e]) entries.

(** The second loop of [write_c_header] taken record by record. *)
Fixpoint emit_each (seen : gset string) (records : list WitRecord)
  : list string :=
  match records with
  | [] => []
  | r :: rs =>
      let k := emit_record seen r in
      k.1 ++ emit_each k.2 rs
  end.

(** ** The drift checker: [tools/check_runner_dbi_status.py] *)

(** The class [[A-Z0-9_]]. *)
Definition macro_char (c : ascii) : bool :=
  Chr.is_upper c || Chr.is_digit c || Ascii.eqb c "_".

(** The pattern of [load_wit_macros]; its parts, spaced out:
    [^ \s* #define \s+ ( SAP_WIT_DBI_ [A-Z0-9_]+ ) \s+ ( [0-9]+ ) u? \s* $] *)
Definition MACRO_RE : re :=
  (Bos ++ Star Chr.is_space ++ Lit "#define" ++ Plus Chr.is_space
   ++ Grp 1 (Lit "SAP_WIT_DBI_" ++ Plus macro_char)
   ++ Plus Chr.is_space ++ Grp 2 (Plus Chr.is_digit)
   ++ Opt (Lit "u") ++ Star Chr.is_space ++ Eos)%re.

(** [macro_pat] of [collect_runtime_dbi_usage],
    [\b SAP_WIT_DBI_ [A-Z0-9_]+ \b]; group 0 is the whole match. *)
Definition USE_RE : re :=
  Grp 0 (Wordb ++ Lit "SAP_WIT_DBI_" ++ Plus macro_char ++ Wordb)%re.

(** The pattern of [collect_runner_doc_dbi_usage],
    [\b DBI \s* ( [0-9]+ ) \b]. *)
Definition DOC_RE : re :=
  (Wordb ++ Lit "DBI" ++ Star Chr.is_space ++ Grp 1 (Plus Chr.is_digit)
   ++ Wordb)%re.

(** The characters [str.splitlines] breaks a line at, below U+0100. *)
Definition is_linebreak (c : ascii) : bool :=
  Chr.in_range "010" "013" c || Chr.in_range "028" "030" c
  || Ascii.eqb c "133".

(** [s.splitlines()], [line] being the line read so far; a carriage
    return followed by a line feed is one break. *)
Fixpoint splitlines_from (line s : string) : list string :=
  match s with
  | EmptyString => if Str.is_empty line then [] else [line]
  | String c s' =>
      if Ascii.eqb c "013"
      then match s' with
           | String c' s'' =>
               if Ascii.eqb c' "010" then line :: splitlines_from "" s''
               else line :: splitlines_from "" s'
           | EmptyString => line :: splitlines_from "" s'
           end
      else if is_linebreak c then line :: splitlines_from "" s'
      else splitlines_from (line +:+ String c "") s'
  end.

Definition splitlines (s : string) : list string := splitlines_from "" s.

(** The body of the loop of [load_wit_macros]; [None] stands for the
    [ValueError] of [int]. *)
Definition add_macro (macros : option (gmap string Z)) (line : string)
  : option (gmap string Z) :=
  match macros with
  | None => None
  | Some ms =>
      match pmatch MACRO_RE line with
      | None => Some ms
      | Some m =>
          match PyInt.int (group m 2) with
          | Some v => Some (<[group m 1 := v]> ms)
          | None => None
          end
      end
  end.

(** The loop of [load_wit_macros] over the lines. *)
Definition macros_of_lines (lines : list string) : option (gmap string Z) :=
  foldl add_macro (Some ∅) lines.

Definition load_wit_macros (text : string) : option (gmap string Z) :=
  macros_of_lines (splitlines text).

(** [str.lower()] below U+0100. *)
Definition lower : string → string :=
  Str.map_chars
    (λ c, if Chr.is_upper c || Chr.in_range "192" "214" c
             || Chr.in_range "216" "222" c
          then ascii_of_N (Chr.code c + 32) else c).

(** What the drift checker reports. *)
Inductive dfail : Type :=
| DUsage
| DNotFound
| DInvalidDbi (line : nat) (v : option string)
    (* "line {idx}: invalid dbi value {row.get('dbi')!r}" *)
| DNoMacros
| DMissingRow (d : Z)
    (* "DBI {d} is referenced by runner code/docs but missing in manifest" *)
| DNotActive (d : Z)
    (* "DBI {d} ({name}) is referenced ... but has status=...; expected 'active'" *)
| DMacroMissing (macro : string) (d : Z)   (* "{macro}={d} missing from manifest" *)
| DNameMismatch (macro macro_name : string).

Inductive dresult : Type :=
| DPass (runtime_dbis doc_dbis required_active : nat)
| DFail (e : dfail)
| DCrash.

(** The loop of [load_manifest]: the rows by index, a later row taking
    the place of an earlier one of the same index. *)
Fixpoint by_dbi_from (idx : nat)
    (acc : gmap Z (list (option string * pyval)))
    (rows : list (list (option string * pyval)))
  : dresult + gmap Z (list (option string * pyval)) :=
  match rows with
  | [] => inr acc
  | row :: rest =>
      match od_get "dbi" row with
      | None => inl DCrash
      | Some (VStr s) =>
          match PyInt.int s with
          | Some d => by_dbi_from (S idx) (<[d := row]> acc) rest
          | None => inl (DFail (DInvalidDbi idx (Some s)))
          end
      | Some _ => inl (DFail (DInvalidDbi idx None))
      end
  end.

Definition load_manifest (rows : list (list string))
  : dresult + gmap Z (list (option string * pyval)) :=
  by_dbi_from 2 ∅ (full_reader rows).

(** [macro_pat.findall(text)] *)
Definition macro_tokens (text : string) : list string :=
  map (λ m, group m 0) (finditer USE_RE text).

(** [collect_runtime_dbi_usage]: the indices of the known macros that
    occur in the runner sources. *)
Definition collect_runtime_dbi_usage (sources : list string)
    (macros : gmap string Z) : gset Z :=
  list_to_set (omap (λ token, macros !! token)
                    (flat_map macro_tokens sources)).

(** [collect_runner_doc_dbi_usage]: the numbers written [DBI <n>] in the
    runner documents; [None] stands for the [ValueError] of [int]. *)
Definition doc_numbers (text : string) : list (option Z) :=
  map (λ m, PyInt.int (group m 1)) (finditer DOC_RE text).

Definition collect_runner_doc_dbi_usage (docs : list string)
  : option (gset Z) :=
  list_to_set <$> mapM id (flat_map doc_numbers docs).

(** [row.get(k, "")]: a cell, or [None] where the row was too short. *)
Definition get_or_empty (k : string) (row : list (option string * pyval))
  : pyval :=
  default (VStr "") (od_get k row).

(** The first loop of [main]: every required index has an active row. *)
Fixpoint check_active (by_dbi : gmap Z (list (option string * pyval)))
    (required : list Z) : option dresult :=
  match required with
  | [] => None
  | d :: rest =>
      match by_dbi !! d with
      | None => Some (DFail (DMissingRow d))
      | Some row =>
          match get_or_empty "status" row with
          | VStr s =>
              if String.eqb (lower (Str.strip s)) "active"
              then check_active by_dbi rest
              else Some (DFail (DNotActive d))
          | _ => Some DCrash
          end
      end
  end.

(** The second loop of [main]: every macro has the row of its name. *)
Fixpoint check_names (by_dbi : gmap Z (list (option string * pyval)))
    (items : list (string * Z)) : option dresult :=
  match items with
  | [] => None
  | (macro, d) :: rest =>
      match by_dbi !! d with
      | None => Some (DFail (DMacroMissing macro d))
      | Some row =>
          let macro_name := lower (Str.drop 12 macro) in
          match get_or_empty "name" row with
          | VStr manifest_name =>
              if String.eqb macro_name manifest_name
              then check_names by_dbi rest
              else Some (DFail (DNameMismatch macro macro_name))
          | _ => Some (DFail (DNameMismatch macro macro_name))
          end
      end
  end.

(** The order of [sorted(macros.items())]: by macro name. *)
Definition item_le (a b : string * Z) : Prop := String.le a.1 b.1.

#[global] Instance item_le_dec : RelDecision item_le.
Proof. intros a b. unfold item_le. apply _. Defined.

(** [main] of the drift checker.  The arguments name the manifest, the
    generated header and the repository; an input is [None] when its
    path does not exist.  [sources] are the texts of the files
    [src/runner/*.[ch]], [docs] of the files [docs/RUNNER_*.md]. *)
Definition drift_main (args : list string)
    (manifest_rows : option (list (list string)))
    (header_text : option string)
    (sources docs : option (list string)) : dresult :=
  match args with
  | [_; _; _] =>
      match manifest_rows, header_text, sources, docs with
      | Some rows, Some text, Some srcs, Some dcs =>
          match load_manifest rows with
          | inl r => r
          | inr by_dbi =>
              match load_wit_macros text with
              | None => DCrash
              | Some macros =>
                  if bool_decide (macros = ∅) then DFail DNoMacros
                  else
                    let runtime_used :=
                      collect_runtime_dbi_usage srcs macros in
                    match collect_runner_doc_dbi_usage dcs with
                    | None => DCrash
                    | Some doc_used =>
                        let required_active :=
                          merge_sort Z.le
                            (elements (runtime_used ∪ doc_used)) in
                        match check_active by_dbi required_active with
                        | Some r => r
                        | None =>
                            match check_names by_dbi
                                    (merge_sort item_le
                                       (map_to_list macros)) with
                            | Some r => r
                            | None =>
                                DPass (size runtime_used) (size doc_used)
                                      (length required_active)
                            end
                        end
                    end
              end
          end
      | _, _, _, _ => DFail DNotFound
      end
  | _ => DFail DUsage
  end.

(** ** Field declarations and the lines between them *)

(** A text without a line feed. *)
Definition line_text (t : string) : Prop :=
  Str.all (Chr.is_not Chr.nl) t = true.

(** [chunk] is the declaration of [f]: [<name>: <type-token>,], white
    space (line breaks included) being free before the name and around
    the colon and the type. *)
Definition field_chunk (f : WitField) (chunk : string) : Prop :=
  ∃ w1 w2 w3 w4,
    chunk = w1 +:+ f_name f +:+ w2 +:+ ":" +:+ w3 +:+ wit_type f
               +:+ w4 +:+ ","
    ∧ is_blank w1 ∧ is_blank w2 ∧ is_blank w3 ∧ is_blank w4
    ∧ is_ident (f_name f) ∧ is_type_token (wit_type f).

(** [s] starts with a field declaration. *)
Definition declared_at (s : string) : Prop :=
  ∃ f chunk post, field_chunk f chunk ∧ s = chunk +:+ post.

(** [Reads body fs]: from a line start on, [body] is made of the
    declarations of the fields [fs], each followed by the rest of its
    line, and of lines at the start of which no declaration stands. *)
Inductive Reads : string → list WitField → Prop :=
| reads_end : Reads "" []
| reads_field (f : WitField) (chunk t rest : string) (fs : list WitField) :
    field_chunk f chunk → line_text t → Reads rest fs →
    Reads (chunk +:+ t +:+ String Chr.nl rest) (f :: fs)
| reads_last_field (f : WitField) (chunk t : string) :
    field_chunk f chunk → line_text t → Reads (chunk +:+ t) [f]
| reads_skip (l rest : string) (fs : list WitField) :
    line_text l → ¬ declared_at (l +:+ String Chr.nl rest) →
    Reads rest fs →
    Reads (l +:+ String Chr.nl rest) fs
| reads_last_skip (l : string) :
    line_text l → l ≠ "" → ¬ declared_at l → Reads l [].

(** A record body in which the type suffix of [items] is not closed on
    its line. *)
Definition open_suffix_body : string :=
  "
    first: u8,
    items: list<u8,
    count: u32,
    tags: list<utf8>,
    last: u8,
".

(** [s] does not go on with a character of the class [p]. *)
Definition stops (p : ascii → bool) (s : string) : Prop :=
  match s with String c _ => p c = false | EmptyString => True end.

(** The field of one match of [FIELD_RE]. *)
Definition field_of (m : rmatch) : WitField :=
  mkWitField (group m 1) (group m 2).

(** The matches of [FIELD_RE] found from a position on that has [pv]
    before it and [s] ahead. *)
Definition hits (pv : option ascii) (s : string) : list rmatch :=
  omap (fun p => match p with Hit m => Some m | Gap _ => None end)
       (scan FIELD_RE pv 0 false s).

Definition open_suffix_wit : string :=
  "record dbi0-open-key {" +:+ open_suffix_body +:+ "}".

(** The type read for [items] in [open_suffix_body]. *)
Definition open_suffix_type : string :=
  "list<u8,
    count: u32,
    tags: list<utf8>".

(** [open_suffix_body] without the line of [items]. *)
Definition closed_body : string :=
  "
    first: u8,
    count: u32,
    tags: list<utf8>,
    last: u8,
".
(** * Properties *)

(** ** The resolver yields the indices 0..N-1 *)

Lemma first_gap_None (l : list Z) (s : nat) :
  first_gap (Z.of_nat s :: l) = None →
  Z.of_nat s :: l = map Z.of_nat (seq s (S (length l))).
Proof.
  revert s. induction l as [|cur l IH]; intros s H; [done|].
  cbn [first_gap] in H.
  destruct (cur =? Z.of_nat s + 1) eqn:E; [|done].
  apply Z.eqb_eq in E. cbn [negb] in H.
  assert (cur = Z.of_nat (S s)) as -> by lia.
  specialize (IH (S s) H).
  change (seq s (S (length (Z.of_nat (S s) :: l))))
    with (s :: seq (S s) (S (length l))).
  cbn [map]. by rewrite <- IH.
Qed.

Lemma build_entries_dbi (t : tables) (dbis : list Z) (es : list DbiEntry) :
  build_entries t dbis = inr es → map dbi es = dbis.
Proof.
  revert es. induction dbis as [|d ds IH]; intros es H; cbn in H.
  - by simplify_eq.
  - repeat case_match; simplify_eq. cbn. f_equal. by apply IH.
Qed.

Lemma resolve_indices (t : tables) (es : list DbiEntry) :
  resolve t = inr es →
  es ≠ [] ∧ map dbi es = map Z.of_nat (seq 0 (length es)).
Proof.
  unfold resolve. intros H.
  case_bool_decide; [done|].
  destruct (sorted_keys (per_dbi t)) as [|d0 l] eqn:Hd; [done|].
  destruct (d0 =? 0) eqn:E0; [|done]. apply Z.eqb_eq in E0. subst d0.
  cbn [negb] in H.
  destruct (first_gap (0 :: l)) as [[prev cur]|] eqn:Hg; [done|].
  apply build_entries_dbi in H.
  split.
  - intros ->. done.
  - rewrite H. rewrite <- (length_map dbi es), H.
    exact (first_gap_None l 0 Hg).
Qed.

Lemma seq_strongly_sorted (s n : nat) :
  StronglySorted Z.lt (map Z.of_nat (seq s n)).
Proof.
  revert s. induction n as [|n IH]; intros s; cbn; constructor.
  - apply IH.
  - apply Forall_forall. intros x Hx.
    apply list_elem_of_In, in_map_iff in Hx as (i & <- & Hi).
    apply in_seq in Hi. lia.
Qed.

(** C1.  Whenever [parse_dbi_entries] returns a list of entries, the list
    is not empty, the indices of its entries are exactly 0, 1, ..., N-1
    in this order (N the number of entries), and so the list is sorted
    by strictly increasing index: no gap, no duplicate. *)
Theorem parse_dbi_entries_indices (wit_text : string) (entries : list DbiEntry) :
  parse_dbi_entries wit_text = inr entries →
  entries ≠ []
  ∧ map dbi entries = map Z.of_nat (seq 0 (length entries))
  ∧ StronglySorted Z.lt (map dbi entries).
Proof.
  unfold parse_dbi_entries. intros H.
  destruct (register_all no_tables (parse_records wit_text)) as [e|t];
    [done|].
  apply resolve_indices in H as [Hne Hseq].
  repeat split; [done..|]. rewrite Hseq. apply seq_strongly_sorted.
Qed.

Lemma parse_dbi_entries_indices_witness :
  parse_dbi_entries state_wit = inr state_entries
  ∧ state_entries ≠ []
  ∧ map dbi state_entries = map Z.of_nat (seq 0 (length state_entries))
  ∧ StronglySorted Z.lt (map dbi state_entries).
Proof.
  split; [vm_compute; reflexivity|].
  apply (parse_dbi_entries_indices state_wit). vm_compute. reflexivity.
Defined.

(** ** The type mapping *)

Lemma append_assoc (a b c : string) : (a +:+ b) +:+ c = a +:+ (b +:+ c).
Proof.
  induction a as [|x a IH]; [done|].
  change (String x ((a +:+ b) +:+ c) = String x (a +:+ (b +:+ c))).
  by rewrite IH.
Qed.

Lemma map_wit_type_cells (wit_type c_name : string) :
  map_wit_type wit_type c_name
  = map member_decl (layout_cells wit_type c_name).
Proof.
  unfold map_wit_type, layout_cells.
  repeat (match goal with
          | |- context [String.eqb wit_type ?s] =>
              destruct (String.eqb wit_type s)
          end; cbn [orb]);
    cbn [map]; unfold member_decl; cbn [ctype_name fst snd];
    rewrite ?append_assoc; reflexivity.
Qed.

Lemma generate_record_struct_cells (record : WitRecord) :
  generate_record_struct record
  = ["typedef struct __attribute__((packed)) {"]
    ++ map member_decl (record_cells record)
    ++ ["} SapWit_" +:+ record_c_name record +:+ ";"; ""].
Proof.
  unfold generate_record_struct, record_cells. do 2 f_equal.
  induction (fields record) as [|f fs IH]; [done|].
  cbn [flat_map]. by rewrite map_app, IH, map_wit_type_cells.
Qed.

Local Ltac split_elem :=
  repeat match goal with
         | H : _ ∈ _ :: _ |- _ => apply elem_of_cons in H as [->|H]
         | H : _ ∈ [] |- _ => by apply elem_of_nil in H
         end.

Lemma unknown_type_cells (wit_type c_name : string) :
  wit_type ∉ known_types →
  layout_cells wit_type c_name = [(uint64_t, c_name +:+ "_unknown_layout")].
Proof.
  intros H. unfold layout_cells.
  repeat match goal with
         | |- context [String.eqb wit_type ?s] =>
             destruct (String.eqb_spec wit_type s) as [->|_];
             [exfalso; apply H; unfold known_types; set_solver|]
         end.
  reflexivity.
Qed.

(** C5.  The type mapping is a total function of the type token.  The
    lines [map_wit_type] returns declare the cells of [layout_cells]:
    a 1-byte cell for [s8], [u8] and [bool]; a 2-byte cell for [s16] and
    [u16]; a 4-byte cell for [s32] and [u32]; an 8-byte unsigned cell for
    [s64], [u64] and [timestamp]; a 4-byte float cell for [f32]; an 8-byte
    float cell for [f64] and [score]; two 4-byte unsigned cells, offset
    and length, for [utf8], [bytes] and [string]; and for any other token
    one opaque 8-byte cell, no error being raised. *)
Theorem map_wit_type_total (wit_type c_name : string) :
  map_wit_type wit_type c_name
    = map member_decl (layout_cells wit_type c_name)
  ∧ (wit_type ∈ ["s8"; "u8"; "bool"] →
     layout_cells wit_type c_name = [(uint8_t, c_name)])
  ∧ (wit_type ∈ ["s16"; "u16"] →
     layout_cells wit_type c_name = [(uint16_t, c_name)])
  ∧ (wit_type ∈ ["s32"; "u32"] →
     layout_cells wit_type c_name = [(uint32_t, c_name)])
  ∧ (wit_type ∈ ["s64"; "u64"; "timestamp"] →
     layout_cells wit_type c_name = [(uint64_t, c_name)])
  ∧ (wit_type = "f32" →
     layout_cells wit_type c_name = [(c_float, c_name)])
  ∧ (wit_type ∈ ["f64"; "score"] →
     layout_cells wit_type c_name = [(c_double, c_name)])
  ∧ (wit_type ∈ ["utf8"; "bytes"; "string"] →
     layout_cells wit_type c_name
     = [(uint32_t, c_name +:+ "_offset"); (uint32_t, c_name +:+ "_len")])
  ∧ (wit_type ∉ known_types →
     layout_cells wit_type c_name
     = [(uint64_t, c_name +:+ "_unknown_layout")])
  ∧ map sizeof [uint8_t; uint16_t; uint32_t; uint64_t; c_float; c_double]
    = [1; 2; 4; 8; 4; 8]%N.
Proof.
  split; [apply map_wit_type_cells|].
  repeat split; try (intros H; split_elem; subst; reflexivity).
  apply unknown_type_cells.
Qed.

Lemma map_wit_type_total_witness :
  ("list<u8>" ∉ known_types)
  ∧ layout_cells "list<u8>" "items" = [(uint64_t, "items_unknown_layout")]
  ∧ layout_cells "score" "confidence" = [(c_double, "confidence")].
Proof.
  assert ("list<u8>" ∉ known_types) as H.
  { unfold known_types. intros H.
    repeat (apply elem_of_cons in H as [H|H]; [discriminate|]).
    by apply elem_of_nil in H. }
  split; [exact H|]. split.
  - apply (map_wit_type_total "list<u8>" "items"). exact H.
  - apply (map_wit_type_total "score" "confidence").
    apply elem_of_cons; right. apply elem_of_cons; by left.
Defined.

(** ** The generated validator *)

Lemma generate_validator_body (record : WitRecord) :
  generate_validator record
  = [validator_signature record]
    ++ map render (validator_body record) ++ ["}"; ""].
Proof.
  unfold generate_validator, validator_body, validator_signature.
  destruct (active_rule record); reflexivity.
Qed.

(** ** Strings *)

Lemma app_nil_r (s : string) : s +:+ "" = s.
Proof.
  induction s as [|c s IH]; [done|].
  change (String c (s +:+ "") = String c s). by rewrite IH.
Qed.

Lemma app_cons (c : ascii) (a b : string) :
  String c a +:+ b = String c (a +:+ b).
Proof. reflexivity. Qed.

Lemma length_app (a b : string) :
  String.length (a +:+ b) = (String.length a + String.length b)%nat.
Proof.
  induction a as [|c a IH]; [done|].
  rewrite app_cons. cbn [String.length]. by rewrite IH.
Qed.

Lemma last_char_app (pv : option ascii) (a b : string) :
  Str.last_char pv (a +:+ b) = Str.last_char (Str.last_char pv a) b.
Proof.
  revert pv. induction a as [|c a IH]; intros pv; [done|].
  rewrite app_cons. cbn [Str.last_char]. apply IH.
Qed.

Lemma take_app_length (w s : string) :
  Str.take (String.length w) (w +:+ s) = w.
Proof.
  induction w as [|c w IH].
  - by destruct s.
  - rewrite app_cons. cbn [String.length Str.take]. by rewrite IH.
Qed.

Lemma strip_prefix_Some (l s s' : string) :
  Str.strip_prefix l s = Some s' → s = l +:+ s'.
Proof.
  revert s. induction l as [|a l IH]; intros s H; cbn in H.
  - by simplify_eq.
  - destruct s as [|b s]; [done|].
    destruct (Ascii.eqb_spec a b) as [->|]; [|done].
    rewrite app_cons. f_equal. by apply IH.
Qed.

Lemma all_app (p : ascii → bool) (a b : string) :
  Str.all p (a +:+ b) = Str.all p a && Str.all p b.
Proof.
  induction a as [|c a IH]; [done|].
  rewrite app_cons. cbn [Str.all]. by rewrite IH, andb_assoc.
Qed.

(** ** The matcher is sound for [spans] *)

Lemma star_sound {A : Type} (p : ascii → bool) (k : mstate → option A)
    (pv : option ascii) (u : nat) (s : string) (g : nat → option string)
    (a : A) :
  star p k pv u s g = Some a →
  ∃ w s', s = w +:+ s' ∧ Str.all p w = true
          ∧ k (MState (Str.last_char pv w) (u + String.length w) s' g)
            = Some a.
Proof.
  revert pv u. induction s as [|c s IH]; intros pv u H; cbn [star] in H.
  - exists "", "". by rewrite Nat.add_0_r.
  - destruct (p c) eqn:Hp.
    + unfold orelse in H.
      destruct (star p k (Some c) (S u) s g) as [a'|] eqn:Hs.
      * simplify_eq. apply IH in Hs as (w & s' & -> & Hw & Hk).
        exists (String c w), s'. rewrite app_cons. cbn [Str.all].
        rewrite Hp, Hw. repeat split.
        cbn [Str.last_char String.length].
        by rewrite Nat.add_succ_r.
      * exists "", (String c s). by rewrite Nat.add_0_r.
    + exists "", (String c s). by rewrite Nat.add_0_r.
Qed.

Lemma exec_sound {A : Type} (r : re) :
  ∀ (k : mstate → option A) (pv : option ascii) (u : nat) (s : string)
    (g : nat → option string) (a : A),
    exec r k (MState pv u s g) = Some a →
    ∃ w s' g',
      s = w +:+ s' ∧ spans r pv w s' g g'
      ∧ k (MState (Str.last_char pv w) (u + String.length w) s' g')
        = Some a.
Proof.
  induction r as [p|l|r1 IH1 r2 IH2|r1 IH1 r2 IH2|r1 IH1|p|n r1 IH1| | | | ];
    intros k pv u s g a H; cbn [exec prev used rest caps] in H.
  - destruct s as [|c s]; [done|]. destruct (p c) eqn:Hp; [|done].
    exists (String c ""), s, g. repeat split; eauto.
    cbn [Str.last_char String.length]. by rewrite Nat.add_1_r.
  - destruct (Str.strip_prefix l s) as [s'|] eqn:Hl; [|done].
    apply strip_prefix_Some in Hl as ->.
    exists l, s', g. done.
  - apply IH1 in H as (w1 & s1 & g1 & -> & Hs1 & H).
    apply IH2 in H as (w2 & s2 & g2 & -> & Hs2 & H).
    exists (w1 +:+ w2), s2, g2. rewrite append_assoc, last_char_app.
    rewrite length_app, Nat.add_assoc. split; [done|]. split; [|done].
    cbn [spans]. by exists w1, w2, g1.
  - unfold orelse in H. destruct (exec r1 k _) as [a'|] eqn:H1.
    + simplify_eq. apply IH1 in H1 as (w & s' & g' & -> & Hs & H).
      exists w, s', g'. cbn [spans]. auto.
    + apply IH2 in H as (w & s' & g' & -> & Hs & H).
      exists w, s', g'. cbn [spans]. auto.
  - unfold orelse in H. destruct (exec r1 k _) as [a'|] eqn:H1.
    + simplify_eq. apply IH1 in H1 as (w & s' & g' & -> & Hs & H).
      exists w, s', g'. cbn [spans]. auto.
    + exists "", s, g. cbn [spans]. rewrite Nat.add_0_r. auto.
  - apply star_sound in H as (w & s' & -> & Hw & H).
    exists w, s', g. done.
  - apply IH1 in H as (w & s' & g' & -> & Hs & H).
    cbn [prev used rest caps] in H.
    replace (u + String.length w - u)%nat with (String.length w) in H
      by lia.
    rewrite take_app_length in H.
    exists w, s', (set_cap n w g'). cbn [spans]. eauto.
  - destruct pv; [done|]. exists "", s, g. rewrite Nat.add_0_r. done.
  - exists "", s, g. rewrite Nat.add_0_r. cbn [spans Str.last_char].
    destruct pv as [c|]; [|by auto 6].
    destruct (Ascii.eqb_spec c Chr.nl) as [->|]; [by auto 6|done].
  - exists "", s, g. rewrite Nat.add_0_r. cbn [spans Str.last_char].
    destruct s as [|c [|c' s]]; [by auto 6| |done].
    destruct (Ascii.eqb_spec c Chr.nl) as [->|]; [by auto 6|done].
  - destruct (xorb _ _) eqn:Hx; [|done].
    exists "", s, g. rewrite Nat.add_0_r. done.
Qed.

Lemma match_here_sound (r : re) (adv : bool) (pv : option ascii)
    (s : string) (m : rmatch) :
  match_here r adv pv s = Some m →
  ∃ w s' g', s = w +:+ s' ∧ spans r pv w s' no_caps g'
             ∧ m = RMatch (String.length w) g'.
Proof.
  unfold match_here. intros H.
  apply exec_sound in H as (w & s' & g' & -> & Hs & H).
  unfold accept in H. cbn [used caps] in H.
  destruct (adv && _); [done|]. simplify_eq. by exists w, s', g'.
Qed.

Lemma scan_sound (r : re) (s : string) :
  ∀ (pv : option ascii) (skip : nat) (adv : bool) (m : rmatch),
    Hit m ∈ scan r pv skip adv s →
    ∃ pre post adv',
      s = pre +:+ post
      ∧ match_here r adv' (Str.last_char pv pre) post = Some m.
Proof.
  induction s as [|c s IH]; intros pv skip adv m H; cbn [scan] in H.
  - destruct skip; [|by apply elem_of_nil in H].
    destruct (match_here r adv pv "") as [m'|] eqn:Hm;
      [|by apply elem_of_nil in H].
    apply list_elem_of_singleton in H. simplify_eq.
    by exists "", "", adv.
  - assert (∀ k a, Hit m ∈ scan r (Some c) k a s →
              ∃ pre post adv', String c s = pre +:+ post
                ∧ match_here r adv' (Str.last_char pv pre) post = Some m)
      as Htl.
    { intros k a Hin. apply IH in Hin as (pre & post & adv' & -> & Hm).
      by exists (String c pre), post, adv'. }
    destruct skip as [|n]; [|by eapply Htl].
    destruct (match_here r adv pv (String c s)) as [m1|] eqn:Hm1.
    + destruct (m_len m1) as [|n].
      * apply elem_of_cons in H as [?|H];
          [simplify_eq; by exists "", (String c s), adv|].
        destruct (match_here r true pv (String c s)) as [m2|] eqn:Hm2.
        -- apply elem_of_cons in H as [?|H];
             [simplify_eq; by exists "", (String c s), true|].
           by eapply Htl.
        -- apply elem_of_cons in H as [?|H]; [done|]. by eapply Htl.
      * apply elem_of_cons in H as [?|H];
          [simplify_eq; by exists "", (String c s), adv|].
        by eapply Htl.
    + apply elem_of_cons in H as [?|H]; [done|]. by eapply Htl.
Qed.

Lemma finditer_sound (r : re) (s : string) (m : rmatch) :
  m ∈ finditer r s →
  ∃ pre w post g',
    s = pre +:+ w +:+ post
    ∧ spans r (Str.last_char None pre) w post no_caps g'
    ∧ m = RMatch (String.length w) g'.
Proof.
  unfold finditer. intros H.
  apply list_elem_of_omap in H as (p & Hp & Hm).
  destruct p as [|m']; [done|]. simplify_eq.
  apply scan_sound in Hp as (pre & post & adv' & -> & Hm).
  apply match_here_sound in Hm as (w & s' & g' & -> & Hs & ->).
  by exists pre, w, s', g'.
Qed.

(** ** The parser returns only what is written *)

Lemma app_nil_l (s : string) : "" +:+ s = s.
Proof. reflexivity. Qed.

Lemma all_cons (p : ascii → bool) (c : ascii) (s : string) :
  p c = true → Str.all p s = true → Str.all p (String c s) = true.
Proof. intros Hc Hs. cbn. by rewrite Hc, Hs. Qed.

Lemma suffix_spans (pv : option ascii) (ts after : string)
    (g g' : nat → option string) :
  spans (Opt (Lit "<" ++ Plus (Chr.is_not ">") ++ Lit ">")) pv ts after g g' →
  g' = g
  ∧ (ts = ""
     ∨ ∃ arg, arg ≠ "" ∧ Str.all (Chr.is_not ">") arg = true
              ∧ ts = "<" +:+ arg +:+ ">").
Proof.
  unfold Plus. intros [Hs|[-> ->]]; [|by auto].
  destruct Hs as (lt & r1 & k1 & -> & [-> ->] & Hs).
  destruct Hs as (arg & gt & k2 & -> & Harg & [-> ->]).
  destruct Harg as (ac & at' & k3 & -> & [(e & -> & He) ->] & [Hat ->]).
  split; [done|]. right.
  change (String e "" +:+ at') with (String e at').
  exists (String e at'). split; [done|]. split; [by apply all_cons|done].
Qed.

Lemma field_spans_chunk (pv : option ascii) (w post : string)
    (g' : nat → option string) :
  spans FIELD_RE pv w post no_caps g' →
  (pv = None ∨ pv = Some Chr.nl)
  ∧ field_chunk (field_of (RMatch (String.length w) g')) w.
Proof.
  intros H. unfold FIELD_RE, Plus in H.
  destruct H as (w0 & r1 & k1 & -> & (-> & -> & Hbol) & H).
  destruct H as (w1 & r2 & k2 & -> & [Hw1 ->] & H).
  destruct H as (wn & r3 & k3 & -> & Hn & H).
  destruct Hn as (g1 & (nc & nt & g2 & -> & [(c & -> & Hc) ->] & [Hnt ->])
                  & ->).
  destruct H as (w2 & r4 & k4 & -> & [Hw2 ->] & H).
  destruct H as (colon & r5 & k5 & -> & [-> ->] & H).
  destruct H as (w3 & r6 & k6 & -> & [Hw3 ->] & H).
  destruct H as (wt & r7 & k7 & -> & Ht & H).
  destruct H as (w4 & comma & g3 & -> & [Hw4 ->] & [-> ->]).
  destruct Ht as (g4 & (tb & ts & g5 & -> & Htb & Hts) & ->).
  destruct Htb as (tc & tt & g6 & -> & [(d & -> & Hd) ->] & [Htt ->]).
  change (String c "" +:+ nt) with (String c nt) in *.
  change (String d "" +:+ tt) with (String d tt) in *.
  set (name := String c nt) in *.
  set (base := String d tt) in *.
  apply suffix_spans in Hts as [-> Hts].
  assert (is_ident name) as Hname by (split; [done|by apply all_cons]).
  assert (is_ident base) as Hbase by (split; [done|by apply all_cons]).
  unfold field_of.
  replace (group (RMatch _ _) 1) with name by reflexivity.
  replace (group (RMatch _ _) 2) with (base +:+ ts) by reflexivity.
  assert (is_type_token (base +:+ ts)) as Htok.
  { exists base. split; [done|].
    destruct Hts as [->|(arg & Hne & Harg & ->)];
      [left; by rewrite app_nil_r|].
    right. by exists arg. }
  split; [done|].
  exists w1, w2, w3, w4. cbn [f_name wit_type].
  split; [|done]. by rewrite !app_nil_l.
Qed.

Lemma match_declared (adv : bool) (pv : option ascii) (s : string)
    (m : rmatch) :
  match_here FIELD_RE adv pv s = Some m → declared_at s.
Proof.
  intros H. apply match_here_sound in H as (w & post & g' & -> & H & ->).
  apply field_spans_chunk in H as [_ H]. by eexists _, w, post.
Qed.

Lemma field_match_written (body : string) (m : rmatch) :
  m ∈ finditer FIELD_RE body →
  written_in (mkWitField (group m 1) (group m 2)) body.
Proof.
  intros H. apply finditer_sound in H as (pre & w & post & g' & -> & H & ->).
  apply field_spans_chunk in H
    as [Hpv (w1 & w2 & w3 & w4 & -> & H1 & H2 & H3 & H4 & Hn & Ht)].
  exists pre, w1, w2, w3, w4, post.
  split; [by rewrite !append_assoc|]. done.
Qed.

Lemma parse_fields_written (body : string) (f : WitField) :
  f ∈ parse_fields body → written_in f body.
Proof.
  unfold parse_fields. intros H.
  apply list_elem_of_In, in_map_iff in H as (m & <- & Hm).
  apply field_match_written. by apply list_elem_of_In.
Qed.

Lemma record_match_block (wit_text : string) (m : rmatch) :
  m ∈ finditer RECORD_BLOCK_RE wit_text →
  block_in (record_of_match m) (group m 3) wit_text.
Proof.
  intros H.
  apply finditer_sound in H as (pre & w & post & g' & -> & H & ->).
  unfold RECORD_BLOCK_RE, Plus in H.
  destruct H as (wa & r1 & g0 & -> & _ & H).
  destruct H as (wb & r2 & k2 & -> & [_ ->] & H).
  destruct H as (kw & r3 & k3 & -> & [-> ->] & H).
  destruct H as (w1 & r4 & k4 & -> & Hw1 & H).
  destruct Hw1 as (sc & st & g1 & -> & [(c & -> & Hc) ->] & [Hst ->]).
  destruct H as (wn & r5 & k5 & -> & Hn & H).
  destruct Hn as (g2 & (nc & nt & g3 & -> & [(d & -> & Hd) ->] & [Hnt ->])
                  & ->).
  destruct H as (w2 & r6 & k6 & -> & [Hw2 ->] & H).
  destruct H as (lb & r7 & k7 & -> & [-> ->] & H).
  destruct H as (wbody & rb & k8 & -> & (g4 & [Hbody ->] & ->) & [-> ->]).
  change (String d "" +:+ nt) with (String d nt) in *.
  change (String c "" +:+ st) with (String c st) in *.
  set (name := String d nt) in *.
  unfold record_of_match, block_in. cbn [r_name].
  replace (group (RMatch _ _) 2) with name by reflexivity.
  replace (group (RMatch _ _) 3) with wbody by reflexivity.
  exists (pre +:+ wa +:+ wb), (String c st), w2, post.
  split; [by rewrite !append_assoc|].
  split; [done|]. split; [by apply all_cons|]. done.
Qed.

(** ** The example of the specification *)

(** C8.  The source made of the records [dbi0-state-key] and
    [dbi0-state-value] resolves to exactly one entry, of index 0 and
    label [state]; run with no prior manifest, the tool writes a manifest
    made of the header and of one data row, whose text is
    [0,state,wit:dbi0-state-key,wit:dbi0-state-value,runtime,active]. *)
Theorem state_example (header_path : string) :
  (∃ e, parse_dbi_entries state_wit = inr [e]
        ∧ dbi e = 0 ∧ e_name e = "state"
        ∧ key_record e = "dbi0-state-key"
        ∧ value_record e = "dbi0-state-value")
  ∧ ∃ row,
      manifest (main (Some state_wit) header_path no_files).2
        = Some (Csv.write [manifest_header; row])
      ∧ row = ["0"; "state"; "wit:dbi0-state-key"; "wit:dbi0-state-value";
               "runtime"; "active"]
      ∧ csv_line row
        = "0,state,wit:dbi0-state-key,wit:dbi0-state-value,runtime,active"
      ∧ Csv.write [manifest_header; row]
        = csv_line manifest_header +:+ String Chr.nl ""
          +:+ csv_line row +:+ String Chr.nl "".
Proof.
  assert (parse_dbi_entries state_wit = inr state_entries) as Hp
    by (vm_compute; reflexivity).
  split.
  - eexists. split; [exact Hp|]. repeat split.
  - eexists. split; [|split; [reflexivity|split; reflexivity]].
    unfold main. rewrite Hp. vm_compute. reflexivity.
Qed.

(** ** The same label under two indices *)

(** C10.  There is a source that the resolver accepts although two
    indices carry the same label: [twin_wit] resolves to the entries 0
    and 1, both labelled [state], and the header generated for them has
    two [#define] lines for the one macro name [SAP_WIT_DBI_STATE], with
    the values [0u] and [1u]. *)
Theorem same_label_two_indices (header_path : string) :
  ∃ entries,
    parse_dbi_entries twin_wit = inr entries
    ∧ map dbi entries = [0; 1]
    ∧ map e_name entries = ["state"; "state"]
    ∧ map define_line entries
      = ["#define SAP_WIT_DBI_STATE 0u"; "#define SAP_WIT_DBI_STATE 1u"]
    ∧ (∃ before after,
         header_lines entries
         = before ++ ["#define SAP_WIT_DBI_STATE 0u";
                      "#define SAP_WIT_DBI_STATE 1u"] ++ after)
    ∧ header (main (Some twin_wit) header_path no_files).2
      = Some (Str.join (String Chr.nl "") (header_lines entries)).
Proof.
  assert (parse_dbi_entries twin_wit = inr twin_entries) as Hp
    by (vm_compute; reflexivity).
  exists twin_entries. split; [exact Hp|].
  assert (map define_line twin_entries
          = ["#define SAP_WIT_DBI_STATE 0u"; "#define SAP_WIT_DBI_STATE 1u"])
    as Hd by (vm_compute; reflexivity).
  split; [reflexivity|]. split; [reflexivity|]. split; [exact Hd|]. split.
  - unfold header_lines. rewrite Hd. eexists _, _. reflexivity.
  - unfold main. rewrite Hp. reflexivity.
Qed.

(** ** Record names that follow the dbi convention *)

Lemma digit_facts (c : ascii) :
  Chr.is_digit c = true →
  Chr.is_space c = false ∧ Ascii.eqb c "+" = false
  ∧ Ascii.eqb c "-" = false ∧ Ascii.eqb c "_" = false
  ∧ ∃ v, PyInt.digit_val c = Some v ∧ 0 ≤ v ≤ 9.
Proof.
  destruct c as [[] [] [] [] [] [] [] []]; intros H;
    vm_compute in H; try discriminate H; clear H;
    (repeat split; try reflexivity);
    eexists; (split; [vm_compute; reflexivity|lia]).
Qed.

Lemma int_digits_digits (s : string) :
  ∀ (b : bool) (acc : Z),
    Str.all Chr.is_digit s = true → s ≠ "" ∨ b = true → 0 ≤ acc →
    ∃ d, PyInt.int_digits b acc s = Some d ∧ 0 ≤ d.
Proof.
  induction s as [|c s IH]; intros b acc Hs Hne Hacc.
  - destruct Hne as [?| ->]; [done|]. by exists acc.
  - cbn [Str.all] in Hs. apply andb_true_iff in Hs as [Hc Hs].
    apply digit_facts in Hc as (_ & _ & _ & Hu & v & Hv & Hr).
    cbn [PyInt.int_digits]. rewrite Hu, Hv.
    apply IH; [done|by right|lia].
Qed.




Lemma int_space_is_space (c : ascii) :
  PyInt.is_space c = true → Chr.is_space c = true.
Proof.
  destruct c as [[] [] [] [] [] [] [] []]; intros H;
    vm_compute in H; try discriminate H; reflexivity.
Qed.

Lemma int_trim_no_space (p : ascii → bool) (s : string) :
  (∀ c, p c = true → Chr.is_space c = false) →
  Str.all p s = true → PyInt.rstrip (PyInt.lstrip s) = s.
Proof.
  intros Hp Hs.
  assert (∀ c, p c = true → PyInt.is_space c = false) as Hq.
  { intros c Hc. destruct (PyInt.is_space c) eqn:Hi; [|done].
    apply int_space_is_space in Hi. by rewrite (Hp c Hc) in Hi. }
  assert (PyInt.lstrip s = s) as ->.
  { destruct s as [|c s]; [done|]. cbn [Str.all] in Hs.
    apply andb_true_iff in Hs as [Hc _]. cbn. by rewrite (Hq c Hc). }
  induction s as [|c s IH]; [done|].
  cbn [Str.all] in Hs. apply andb_true_iff in Hs as [Hc Hs].
  cbn [PyInt.rstrip]. rewrite (IH Hs). destruct s; [|done].
  by rewrite (Hq c Hc).
Qed.

Lemma int_of_digits (s : string) :
  Str.all Chr.is_digit s = true → s ≠ "" →
  ∃ d, PyInt.int s = Some d ∧ 0 ≤ d.
Proof.
  intros Hs Hne. unfold PyInt.int.
  rewrite (int_trim_no_space Chr.is_digit)
    by (done || intros c Hc; by apply digit_facts in Hc as [? _]).
  destruct s as [|c s]; [done|].
  pose proof Hs as Hs'. cbn [Str.all] in Hs'.
  apply andb_true_iff in Hs' as [Hc _].
  apply digit_facts in Hc as (_ & -> & -> & _).
  apply int_digits_digits; [done|by left|lia].
Qed.

Lemma dbi_match_shape (name : string) (m : rmatch) :
  pmatch DBI_REC_RE name = Some m →
  Str.all Chr.is_digit (group m 1) = true ∧ group m 1 ≠ ""
  ∧ is_label (group m 2)
  ∧ (group m 3 = "key" ∨ group m 3 = "value").
Proof.
  unfold pmatch. intros H.
  apply match_here_sound in H as (w & s' & g' & -> & H & ->).
  unfold DBI_REC_RE, Plus in H.
  destruct H as (w0 & r0 & k0 & -> & (-> & -> & _) & H).
  destruct H as (w1 & r1 & k1 & -> & [-> ->] & H).
  destruct H as (wd & r2 & k2 & -> & Hd & H).
  destruct Hd as (g1 & (dc & dt & g2 & -> & [(c & -> & Hc) ->] & [Hdt ->])
                  & ->).
  destruct H as (w2 & r3 & k3 & -> & [-> ->] & H).
  destruct H as (wl & r4 & k4 & -> & Hl & H).
  destruct Hl as (g3 & (lc & lt & g4 & -> & [(d & -> & Hd) ->] & [Hlt ->])
                  & ->).
  destruct H as (w3 & r5 & k5 & -> & [-> ->] & H).
  destruct H as (wk & r6 & k6 & -> & (g5 & Hk & ->) & (-> & -> & _)).
  change (String c "" +:+ dt) with (String c dt) in *.
  change (String d "" +:+ lt) with (String d lt) in *.
  assert (g5 = set_cap 2 (String d lt) (set_cap 1 (String c dt) no_caps)
          ∧ (wk = "key" ∨ wk = "value")) as [-> Hkind]
    by (destruct Hk as [[-> ->]|[-> ->]]; auto).
  replace (group (RMatch _ _) 1) with (String c dt) by reflexivity.
  replace (group (RMatch _ _) 2) with (String d lt) by reflexivity.
  replace (group (RMatch _ _) 3) with wk by reflexivity.
  split; [by apply all_cons|]. split; [done|].
  split; [by exists d, lt|done].
Qed.

(** ** The tables of the resolver *)

Lemma register_ok (t t' : tables) (r : WitRecord) :
  tables_ok t → register t r = inr t' → tables_ok t'.
Proof.
  intros [Hd Hn]. unfold register.
  destruct (pmatch DBI_REC_RE (r_name r)) as [m|] eqn:Hm;
    [|intros; by simplify_eq].
  apply dbi_match_shape in Hm as (Hdig & Hne & Hlab & _).
  destruct (int_of_digits _ Hdig Hne) as (d & -> & Hd0).
  destruct (name_conflict t d (group m 2)); [done|].
  destruct (default ∅ (per_dbi t !! d) !! group m 3); [done|].
  intros ?; simplify_eq. split; cbn [per_dbi names_by_dbi].
  - intros d' slot. destruct (decide (d = d')) as [->|Hne'].
    + done.
    + rewrite lookup_insert_ne by done. apply Hd.
  - intros d' n. destruct (decide (d = d')) as [->|Hne'].
    + rewrite lookup_insert_eq. by intros ?; simplify_eq.
    + rewrite lookup_insert_ne by done. apply Hn.
Qed.

Lemma register_all_ok (records : list WitRecord) :
  ∀ t t', tables_ok t → register_all t records = inr t' → tables_ok t'.
Proof.
  induction records as [|r rs IH]; intros t t' Hok H; cbn in H.
  - by simplify_eq.
  - destruct (register t r) as [e|t1] eqn:Hr; [done|].
    eapply IH; [|done]. by eapply register_ok.
Qed.

Lemma no_tables_ok : tables_ok no_tables.
Proof. split; intros ??; cbn; by rewrite lookup_empty. Qed.

Lemma elem_of_sorted_keys (m : gmap Z (gmap string WitRecord)) (d : Z) :
  d ∈ sorted_keys m ↔ is_Some (m !! d).
Proof.
  unfold sorted_keys. rewrite merge_sort_Permutation.
  change (map fst (map_to_list m)) with ((map_to_list m).*1).
  rewrite list_elem_of_fmap. split.
  - intros ([d' slot] & -> & H). apply elem_of_map_to_list in H. by eexists.
  - intros [slot H]. exists (d, slot). split; [done|].
    by apply elem_of_map_to_list.
Qed.

Lemma sorted_keys_sorted (m : gmap Z (gmap string WitRecord)) :
  StronglySorted Z.le (sorted_keys m).
Proof. apply StronglySorted_merge_sort; apply _. Qed.

Lemma sorted_keys_NoDup (m : gmap Z (gmap string WitRecord)) :
  NoDup (sorted_keys m).
Proof.
  unfold sorted_keys. rewrite merge_sort_Permutation.
  apply NoDup_fst_map_to_list.
Qed.

Lemma gap_shape (l : list Z) :
  StronglySorted Z.le l → NoDup l → Forall (Z.le 0) l →
  0 ∈ l → 2 ∈ l → 1 ∉ l → ∃ tl, l = 0 :: 2 :: tl.
Proof.
  intros Hs Hnd Hpos H0 H2 H1.
  destruct l as [|d0 l]; [by apply elem_of_nil in H0|].
  apply StronglySorted_inv in Hs as [Hs Hle].
  apply NoDup_cons in Hnd as [Hd0 Hnd].
  apply Forall_cons in Hpos as [Hp0 Hpos].
  rewrite Forall_forall in Hle, Hpos.
  assert (d0 = 0) as ->.
  { apply elem_of_cons in H0 as [?|H0]; [done|]. specialize (Hle _ H0). lia. }
  apply elem_of_cons in H2 as [?|H2]; [done|].
  destruct l as [|d1 l]; [by apply elem_of_nil in H2|].
  apply StronglySorted_inv in Hs as [Hs Hle1].
  rewrite Forall_forall in Hle1.
  assert (d1 = 2) as ->; [|by eexists].
  assert (0 ≤ d1) by (apply Hpos; by left).
  assert (d1 ≠ 0) by (intros ->; apply Hd0; by left).
  assert (d1 ≠ 1) by (intros ->; apply H1; right; by left).
  apply elem_of_cons in H2 as [?|H2]; [done|]. specialize (Hle1 _ H2). lia.
Qed.

Lemma resolve_gap (t : tables) :
  tables_ok t →
  is_Some (per_dbi t !! 0) → is_Some (per_dbi t !! 2) →
  per_dbi t !! 1 = None →
  resolve t = inl (SequenceGap 0 2).
Proof.
  intros [Hd _] H0 H2 H1.
  destruct (gap_shape (sorted_keys (per_dbi t))) as [tl Htl].
  - apply sorted_keys_sorted.
  - apply sorted_keys_NoDup.
  - apply Forall_forall. intros d [slot Hs]%elem_of_sorted_keys. eauto.
  - by apply elem_of_sorted_keys.
  - by apply elem_of_sorted_keys.
  - intros [slot Hs]%elem_of_sorted_keys. congruence.
  - unfold resolve. rewrite Htl. case_bool_decide as He; [|done].
    rewrite He, lookup_empty in H0. by destruct H0.
Qed.

(** ** A resolver error writes nothing *)

(** C6.  When the resolver raises an error the run fails with that error
    and leaves the three output files as they were: nothing is written
    before the resolver has succeeded.  When the records of the source
    fill index 0 and index 2 but not index 1 (and the loop over the
    records raised nothing) the error is the sequence gap between 0 and
    2; [gap_wit], with a complete pair for index 0 and the record
    [dbi2-foo-key], is such a source. *)
Theorem resolver_error_writes_nothing (wit_text header_path : string)
    (fs : files) :
  (∀ e, parse_dbi_entries wit_text = inl e →
        main (Some wit_text) header_path fs = (Fail e, fs))
  ∧ (∀ t, register_all no_tables (parse_records wit_text) = inr t →
          is_Some (per_dbi t !! 0) → is_Some (per_dbi t !! 2) →
          per_dbi t !! 1 = None →
          main (Some wit_text) header_path fs = (Fail (SequenceGap 0 2), fs))
  ∧ main (Some gap_wit) header_path fs = (Fail (SequenceGap 0 2), fs).
Proof.
  split; [|split].
  - intros e He. unfold main. by rewrite He.
  - intros t Ht H0 H2 H1. unfold main, parse_dbi_entries. rewrite Ht.
    rewrite resolve_gap; [done| |done..].
    eapply register_all_ok; [apply no_tables_ok|done].
  - unfold main.
    assert (parse_dbi_entries gap_wit = inl (SequenceGap 0 2)) as ->
      by (vm_compute; reflexivity).
    done.
Qed.

Lemma resolver_error_writes_nothing_witness :
  parse_dbi_entries gap_wit = inl (SequenceGap 0 2)
  ∧ main (Some gap_wit) "gen/wit_schema_dbis.h" no_files
    = (Fail (SequenceGap 0 2), no_files).
Proof.
  assert (parse_dbi_entries gap_wit = inl (SequenceGap 0 2)) as H
    by (vm_compute; reflexivity).
  split; [exact H|].
  exact (proj1 (resolver_error_writes_nothing gap_wit
                  "gen/wit_schema_dbis.h" no_files) _ H).
Defined.

(** ** The decimal text of an index reads back as the index *)







(** ** Trimming *)






Lemma str_or_of_clean (x d : string) : clean x → str_or (Str.strip x) d = x.
Proof. intros [Hs He]. unfold str_or. by rewrite Hs, He. Qed.




(** ** Labels and normalized names *)


Lemma ident_head_ident (c : ascii) :
  Chr.ident_head c = true → Chr.ident c = true.
Proof.
  unfold Chr.ident_head, Chr.ident. intros ->. done.
Qed.



(** ** Reading the manifest back *)













(** ** A second run changes nothing *)




(** ** The manifest file read back *)






















(** ** A second run *)




(** ** What the reconciler carries forward *)

Lemma remember_unusable (meta : gmap Z (string * string * string))
    (row : gmap string (option string)) (d : Z) :
  usable d row = false → remember meta row !! d = meta !! d.
Proof.
  unfold usable, remember. intros H.
  destruct (PyInt.int (cell row "dbi")) as [d'|]; [|done].
  destruct (Str.is_empty (cell row "name")) eqn:He; [done|].
  rewrite andb_true_r in H. apply bool_decide_eq_false in H.
  rewrite lookup_insert_ne; [done|]. congruence.
Qed.

Lemma remember_usable (meta : gmap Z (string * string * string))
    (row : gmap string (option string)) (d : Z) :
  usable d row = true → remember meta row !! d = Some (kept row).
Proof.
  unfold usable, remember. intros [Hd He]%andb_true_iff.
  apply bool_decide_eq_true in Hd. rewrite Hd.
  apply negb_true_iff in He. rewrite He. by rewrite lookup_insert_eq.
Qed.

Lemma foldl_remember_lookup (rows : list (gmap string (option string)))
    (d : Z) :
  ∀ meta,
    foldl remember meta rows !! d
    = match last (filter (λ row, usable d row) rows) with
      | Some row => Some (kept row)
      | None => meta !! d
      end.
Proof.
  induction rows as [|r rows IH]; intros meta; [done|].
  cbn [foldl]. rewrite IH.
  destruct (usable d r) eqn:Hu.
  - rewrite filter_cons_True by (by rewrite Hu).
    destruct (filter (λ row, usable d row) rows) as [|r' l] eqn:Hf.
    + cbn. by apply remember_usable.
    + rewrite last_cons_cons.
      destruct (last (r' :: l)) eqn:Hl; [done|]. by apply last_None in Hl.
  - rewrite filter_cons_False by (rewrite Hu; cbn; tauto).
    destruct (last (filter (λ row, usable d row) rows)); [done|].
    by apply remember_unusable.
Qed.

Lemma load_meta_lookup (prior : option (list (list string))) (d : Z) :
  load_meta prior !! d = kept <$> prior_row prior d.
Proof.
  unfold prior_row, prior_rows, load_meta.
  destruct prior as [rows|]; [|done].
  rewrite foldl_remember_lookup.
  by destruct (last _).
Qed.

Lemma curated_reconciled (prior : option (list (list string)))
    (e : DbiEntry) :
  curated (load_meta prior) e = reconciled prior e.
Proof.
  unfold curated, reconciled. rewrite load_meta_lookup.
  destruct (prior_row prior (dbi e)) as [row|]; [|done].
  cbn [fmap option_fmap option_map kept].
  by destruct (String.eqb (cell row "name") (norm_name e)).
Qed.

(** C2, as the code has it.  The row written for an entry takes its
    owner and status from the prior row for its index, which is the last
    row of the prior manifest whose dbi cell reads as that index and
    whose trimmed name is not empty: when the trimmed name of that row
    equals the normalized name of the entry, the owner and the status
    are the trimmed cells of the row, an empty owner being replaced by
    [runtime] and an empty status by [planned]; otherwise, and when
    there is no such row, the owner is [runtime] and the status is
    [active] for index 0 and [planned] for any other index.  Owner and
    status cells that are not empty and carry no surrounding whitespace
    are therefore carried forward as they are. *)
Theorem write_manifest_reconciles (entries : list DbiEntry)
    (prior : option (list (list string))) :
  write_manifest entries prior
  = manifest_header
    :: map (λ e, [ PyInt.str (dbi e); norm_name e;
                   "wit:" +:+ key_record e; "wit:" +:+ value_record e;
                   (reconciled prior e).1; (reconciled prior e).2 ])
           entries
  ∧ ∀ e row,
      prior_row prior (dbi e) = Some row →
      cell row "name" = norm_name e →
      clean (raw row "owner") → clean (raw row "status") →
      reconciled prior e = (raw row "owner", raw row "status").
Proof.
  split.
  - unfold write_manifest. f_equal. apply map_ext. intros e.
    unfold manifest_row. by rewrite curated_reconciled.
  - intros e row Hrow Hname Ho Hs. unfold reconciled.
    rewrite Hrow, Hname, String.eqb_refl. unfold cell.
    by rewrite !str_or_of_clean.
Qed.

Lemma write_manifest_reconciles_witness :
  prior_row (Some curated_manifest) (dbi state_entry) = Some curated_row
  ∧ cell curated_row "name" = norm_name state_entry
  ∧ clean (raw curated_row "owner") ∧ clean (raw curated_row "status")
  ∧ reconciled (Some curated_manifest) state_entry
    = ("storage-team", "deprecated").
Proof.
  assert (prior_row (Some curated_manifest) (dbi state_entry)
          = Some curated_row) as Hrow by (vm_compute; reflexivity).
  assert (cell curated_row "name" = norm_name state_entry) as Hname
    by (vm_compute; reflexivity).
  assert (clean (raw curated_row "owner")) as Ho by (by vm_compute).
  assert (clean (raw curated_row "status")) as Hs by (by vm_compute).
  split; [exact Hrow|]. split; [exact Hname|].
  split; [exact Ho|]. split; [exact Hs|].
  exact (proj2 (write_manifest_reconciles [state_entry]
                  (Some curated_manifest))
           state_entry curated_row Hrow Hname Ho Hs).
Defined.

(** C2, as it is stated, fails on [padded_manifest].  Its only data row
    is keyed by index 0 and stores the name [state], the normalized name
    of the entry of [state_wit]; its owner cell is [ ops ], with a space
    on either side, and its status cell is empty.  The row written for
    the entry has the owner [ops] and the status [planned]: this is
    neither the owner and status of the prior row as they stand, nor the
    default [runtime] and [active] of index 0. *)
Lemma carried_forward_not_verbatim :
  dict_reader padded_manifest = [padded_row]
  ∧ PyInt.int (raw padded_row "dbi") = Some (dbi state_entry)
  ∧ raw padded_row "name" = norm_name state_entry
  ∧ raw padded_row "owner" = " ops "
  ∧ raw padded_row "status" = ""
  ∧ write_manifest [state_entry] (Some padded_manifest)
    = [ manifest_header;
        ["0"; "state"; "wit:dbi0-state-key"; "wit:dbi0-state-value";
         "ops"; "planned"] ]
  ∧ ("ops", "planned") ≠ (raw padded_row "owner", raw padded_row "status")
  ∧ ("ops", "planned") ≠ ("runtime", "active").
Proof.
  repeat split; try (vm_compute; reflexivity); by vm_compute.
Qed.

(** ** Field names inside longer identifiers *)

(** C4, on [audit_wit].  The value record declares the fields [at] and
    [updated-at] and is refined by [updated-at > 0].  The condition of
    the generated validator is [updated-rec->at > 0]: the occurrence of
    the field name [at] that is the end of the longer identifier
    [updated-at] (the character before it, a hyphen, is an identifier
    character) has been replaced, and the field [updated-at] itself has
    not been qualified.  With the two fields declared in the other order
    the condition is [rec->updated_at > 0]. *)
Theorem hyphenated_name_collision :
  (∃ e, parse_dbi_entries audit_wit = inr [e] ∧ value_ast e = audit_value)
  ∧ active_rule audit_value = Some ("updated-" +:+ "at" +:+ " > 0")
  ∧ Chr.ident "-" = true
  ∧ qualify "updated-at > 0" (fields audit_value)
    = "updated-" +:+ "rec->at" +:+ " > 0"
  ∧ "    if (!(updated-rec->at > 0)) return -1; /* Refinement violation! */"
      ∈ generate_validator audit_value
  ∧ qualify "updated-at > 0" (rev (fields audit_value))
    = "rec->updated_at > 0".
Proof.
  split.
  { eexists. split; [vm_compute; reflexivity|reflexivity]. }
  split; [reflexivity|]. split; [reflexivity|].
  split; [vm_compute; reflexivity|].
  split; [|vm_compute; reflexivity].
  assert (generate_validator audit_value
          = [ validator_signature audit_value;
              render ReturnIfEmpty;
              render (ReturnIfShort (record_c_name audit_value));
              render (DeclareRec (record_c_name audit_value));
              "    if (!(updated-rec->at > 0)) return -1; /* Refinement violation! */";
              render Return0; "}"; "" ]) as ->
    by (vm_compute; reflexivity).
  do 4 apply list_elem_of_further. apply list_elem_of_here.
Qed.



(** * Further properties *)

(** ** The substitution of field names *)

Lemma strip_prefix_app (l s : string) :
  Str.strip_prefix l (l +:+ s) = Some s.
Proof.
  induction l as [|a l IH]; [done|].
  rewrite app_cons. cbn [Str.strip_prefix]. by rewrite Ascii.eqb_refl.
Qed.

Lemma word_match_eq (name : string) (adv : bool) (pv : option ascii)
    (s : string) :
  name ≠ "" →
  match_here (word_re name) adv pv s
  = if boundary pv (next s)
    then match Str.strip_prefix name s with
         | Some s' =>
             if boundary (Str.last_char pv name) (next s')
             then Some (RMatch (String.length name) no_caps)
             else None
         | None => None
         end
    else None.
Proof.
  intros Hne. unfold match_here, word_re, boundary.
  cbn [exec prev used rest caps].
  destruct (xorb (word_at pv) (word_at (next s))); [|done].
  destruct (Str.strip_prefix name s) as [s'|]; [|done].
  destruct (xorb _ _); [|done].
  unfold accept. cbn [used caps].
  destruct name; [done|]. cbn [String.length Nat.add Nat.eqb].
  by rewrite andb_false_r.
Qed.

Lemma word_match_Some (name : string) (adv : bool) (pv : option ascii)
    (s : string) (m : rmatch) :
  name ≠ "" →
  match_here (word_re name) adv pv s = Some m →
  word_here name pv s ∧ m_len m = String.length name.
Proof.
  intros Hne. rewrite word_match_eq by done.
  destruct (boundary pv (next s)) eqn:Hb; [|done].
  destruct (Str.strip_prefix name s) as [s'|] eqn:Hp; [|done].
  destruct (boundary _ (next s')) eqn:Hb'; [|done].
  intros ?; simplify_eq. split; [|done].
  exists s'. split; [by apply strip_prefix_Some|done].
Qed.

Lemma word_match_None (name : string) (adv : bool) (pv : option ascii)
    (s : string) :
  name ≠ "" →
  match_here (word_re name) adv pv s = None → ¬ word_here name pv s.
Proof.
  intros Hne. rewrite word_match_eq by done.
  intros H (rest & -> & Hb & Hb'). rewrite Hb, strip_prefix_app, Hb' in H.
  done.
Qed.

Lemma scan_skip (r : re) (w : string) :
  ∀ (pv : option ascii) (t : string),
    scan r pv (String.length w) false (w +:+ t)
    = scan r (Str.last_char pv w) 0 false t.
Proof.
  induction w as [|c w IH]; intros pv t; [done|].
  rewrite app_cons. cbn [String.length scan Str.last_char]. apply IH.
Qed.

Lemma scan_word (name repl : string) (n : nat) :
  name ≠ "" →
  ∀ (s : string) (pv : option ascii),
    (String.length s < n)%nat →
    Rewritten name repl pv s (spliced repl (scan (word_re name) pv 0 false s)).
Proof.
  intros Hne. induction n as [|n IH]; intros s pv Hn; [lia|].
  destruct s as [|c s].
  - cbn [scan]. rewrite word_match_eq by done.
    destruct name; [done|]. cbn [Str.strip_prefix].
    destruct (boundary pv (next "")); constructor.
  - cbn [scan].
    destruct (match_here (word_re name) false pv (String c s)) as [m|] eqn:Hm.
    + apply word_match_Some in Hm as [Hw Hlen]; [|done].
      pose proof Hw as (rest & Hs & _).
      destruct name as [|a name']; [done|].
      rewrite app_cons in Hs. simplify_eq.
      rewrite Hlen. cbn [String.length spliced fold_right].
      rewrite scan_skip.
      change (String a (name' +:+ rest)) with (String a name' +:+ rest) in *.
      apply rw_hit; [done|].
      change (Str.last_char pv (String a name'))
        with (Str.last_char (Some a) name').
      apply IH. rewrite length_app in Hn. cbn [String.length] in Hn. lia.
    + cbn [spliced fold_right]. apply rw_keep.
      * by apply word_match_None in Hm.
      * apply IH. cbn [String.length] in Hn. lia.
Qed.

Lemma sub_word (name repl s : string) :
  name ≠ "" → Rewritten name repl None s (sub (word_re name) repl s).
Proof.
  intros Hne. apply (scan_word name repl (S (String.length s))); [done|lia].
Qed.

Lemma contains_false_keep (name repl : string) :
  ∀ (s : string) (pv : option ascii),
    Str.contains name s = false → Rewritten name repl pv s s.
Proof.
  induction s as [|c s IH]; intros pv H; [constructor|].
  cbn [Str.contains] in H.
  destruct (Str.strip_prefix name (String c s)) eqn:Hp; [done|].
  apply rw_keep; [|by apply IH].
  intros (rest & Hs & _). rewrite Hs, strip_prefix_app in Hp. done.
Qed.

Lemma Rewritten_out (name repl : string) (pv : option ascii)
    (s out : string) :
  name ≠ "" →
  Rewritten name repl pv s out →
  out = spliced repl (scan (word_re name) pv 0 false s).
Proof.
  intros Hne H.
  induction H as [pv|pv c s out Hno H IH|pv rest out Hw H IH].
  - cbn [scan]. rewrite word_match_eq by done.
    destruct name; [done|]. cbn [Str.strip_prefix].
    by destruct (boundary pv (next "")).
  - cbn [scan].
    destruct (match_here (word_re name) false pv (String c s)) as [m|] eqn:Hm.
    + apply word_match_Some in Hm as [Hw _]; done.
    + cbn [spliced fold_right]. by rewrite IH.
  - assert (match_here (word_re name) false pv (name +:+ rest)
            = Some (RMatch (String.length name) no_caps)) as Hm.
    { rewrite word_match_eq by done.
      destruct Hw as (r & Hr & Hb & Hb').
      apply (inj (String.app name)) in Hr. subst r.
      by rewrite Hb, strip_prefix_app, Hb'. }
    destruct name as [|a name']; [done|].
    rewrite app_cons in *. cbn [scan]. rewrite Hm.
    cbn [m_len String.length spliced fold_right].
    rewrite scan_skip. by rewrite IH.
Qed.

Lemma Rewritten_functional (name repl : string) (pv : option ascii)
    (s o1 o2 : string) :
  name ≠ "" →
  Rewritten name repl pv s o1 → Rewritten name repl pv s o2 → o1 = o2.
Proof.
  intros Hne H1 H2.
  rewrite (Rewritten_out _ _ _ _ _ Hne H1).
  by rewrite (Rewritten_out _ _ _ _ _ Hne H2).
Qed.

(** X1.  The condition of a generated validator is the refinement rule
    rewritten field by field, in the order of declaration, each step on
    the result of the step before: a step reads the text from the left
    and replaces by [rec-><c_name>] every occurrence of the field name
    that has a word boundary [\b] on both of its sides, resuming behind
    it, and leaves every other character as it is.  No other text is so
    related to the rule. *)
Theorem qualify_rewrites (rule : string) (fs : list WitField) :
  (∀ f, f ∈ fs → f_name f ≠ "") →
  Qualified fs rule (qualify rule fs)
  ∧ ∀ out, Qualified fs rule out → out = qualify rule fs.
Proof.
  revert rule. induction fs as [|f fs IH]; intros rule Hne.
  - split; [constructor|]. intros out H. by inversion H.
  - assert (f_name f ≠ "") as Hf by (apply Hne; by left).
    assert (∀ f', f' ∈ fs → f_name f' ≠ "") as Hfs
      by (intros f' Hf'; apply Hne; by right).
    assert (Rewritten (f_name f) ("rec->" +:+ field_c_name f) None rule
              (if Str.contains (f_name f) rule
               then sub (word_re (f_name f)) ("rec->" +:+ field_c_name f)
                      rule
               else rule)) as Hstep.
    { destruct (Str.contains (f_name f) rule) eqn:Hc.
      - by apply sub_word.
      - by apply contains_false_keep. }
    change (qualify rule (f :: fs))
      with (qualify (if Str.contains (f_name f) rule
                     then sub (word_re (f_name f))
                            ("rec->" +:+ field_c_name f) rule
                     else rule) fs).
    destruct (IH (if Str.contains (f_name f) rule
                  then sub (word_re (f_name f))
                         ("rec->" +:+ field_c_name f) rule
                  else rule) Hfs) as [Hq Hu].
    split; [by econstructor|].
    intros out H. inversion H; subst.
    match goal with
    | Hr : Rewritten _ _ None rule ?mid, Hq' : Qualified fs ?mid out |- _ =>
        rewrite (Rewritten_functional _ _ _ _ _ _ Hf Hr Hstep) in Hq';
        by apply Hu
    end.
Qed.

Lemma qualify_rewrites_witness :
  (∀ f, f ∈ fields score_record → f_name f ≠ "")
  ∧ Qualified (fields score_record) "confidence >= 0.0"
      (qualify "confidence >= 0.0" (fields score_record)).
Proof.
  assert (∀ f, f ∈ fields score_record → f_name f ≠ "") as H.
  { intros f Hf. cbn [fields score_record] in Hf.
    repeat (apply elem_of_cons in Hf as [->|Hf]; [discriminate|]).
    by apply elem_of_nil in Hf. }
  split; [exact H|].
  exact (proj1 (qualify_rewrites "confidence >= 0.0" (fields score_record) H)).
Defined.

(** ** The generated validator *)


Lemma drop_app_length (w s : string) :
  Str.drop (String.length w) (w +:+ s) = s.
Proof. induction w as [|c w IH]; [by destruct s|]. by rewrite app_cons. Qed.

Lemma chop_app (mid suffix : string) :
  chop suffix (mid +:+ suffix) = Some mid.
Proof.
  unfold chop. rewrite length_app.
  replace (String.length mid + String.length suffix - String.length suffix)%nat
    with (String.length mid) by lia.
  rewrite drop_app_length, take_app_length, String.eqb_refl.
  rewrite andb_true_r. by rewrite (proj2 (Nat.leb_le _ _)) by lia.
Qed.

Lemma between_app (pre mid suffix : string) :
  between pre suffix (pre +:+ mid +:+ suffix) = Some mid.
Proof. unfold between. by rewrite strip_prefix_app, chop_app. Qed.

Lemma between_None (pre suffix line : string) :
  Str.strip_prefix pre line = None → between pre suffix line = None.
Proof. unfold between. by intros ->. Qed.

Lemma read_member_decl (m : ctype * string) :
  read_member (member_decl m) = Some m.
Proof.
  destruct m as [t n]. unfold read_member, member_decl, c_types.
  cbn [fst snd].
  destruct t; cbn [omap list_omap ctype_name];
    repeat (rewrite between_None by reflexivity; cbv iota beta);
    match goal with
    | |- context [between ?pre ";" _] =>
        change (between pre ";" _) with (between pre ";" (pre +:+ n +:+ ";"))
    end;
    by rewrite between_app.
Qed.

Lemma struct_members_cells (record : WitRecord) :
  struct_members (generate_record_struct record) = record_cells record.
Proof.
  rewrite generate_record_struct_cells. unfold struct_members.
  rewrite !omap_app.
  assert (omap read_member ["typedef struct __attribute__((packed)) {"] = [])
    as -> by (vm_compute; reflexivity).
  assert (omap read_member ["} SapWit_" +:+ record_c_name record +:+ ";"; ""]
          = []) as -> by reflexivity.
  cbn [app]. rewrite List.app_nil_r.
  induction (record_cells record) as [|m ms IH]; [done|].
  cbn [map omap list_omap]. rewrite read_member_decl.
  by rewrite IH.
Qed.

Lemma struct_size_record (record : WitRecord) :
  struct_size (generate_record_struct record) = sizeof_record record.
Proof. unfold struct_size. by rewrite struct_members_cells. Qed.

Lemma read_validator (record : WitRecord) :
  omap read_stmt (generate_validator record)
  = [ReturnIfEmpty; ReturnIfShort (record_c_name record)]
    ++ match active_rule record with
       | Some rule => [ReturnIfNot (qualify rule (fields record))]
       | None => []
       end
    ++ [Return0].
Proof.
  unfold generate_validator. cbv zeta.
  set (c := record_c_name record).
  assert (read_stmt ("static inline int sap_wit_validate_" +:+ c
                       +:+ "(const void *data, uint32_t len) {") = None)
    as Hsig by reflexivity.
  assert (read_stmt ("    if (len < sizeof(SapWit_" +:+ c
                       +:+ ")) return -1; /* ERR_CORRUPT */")
          = Some (ReturnIfShort c)) as Hshort.
  { unfold read_stmt.
    assert (∀ t, String.eqb ("    if (len < sizeof(SapWit_" +:+ t)
                   (render ReturnIfEmpty) = false) as -> by reflexivity.
    assert (∀ t, String.eqb ("    if (len < sizeof(SapWit_" +:+ t)
                   (render Return0) = false) as -> by reflexivity.
    by rewrite between_app. }
  assert (∀ t, read_stmt ("    const SapWit_" +:+ t) = None) as Hdecl
    by reflexivity.
  assert (∀ cond,
            read_stmt ("    if (!(" +:+ cond
                         +:+ ")) return -1; /* Refinement violation! */")
            = Some (ReturnIfNot cond)) as Hcond.
  { intros cond. unfold read_stmt, condition.
    assert (∀ t, String.eqb ("    if (!(" +:+ t) (render ReturnIfEmpty) = false)
      as -> by reflexivity.
    assert (∀ t, String.eqb ("    if (!(" +:+ t) (render Return0) = false)
      as -> by reflexivity.
    rewrite between_None by reflexivity.
    by rewrite between_app. }
  rewrite !omap_app.
  assert (omap read_stmt ["    return 0;"; "}"; ""] = [Return0]) as ->
    by (vm_compute; reflexivity).
  f_equal; [|f_equal].
  - cbn [omap list_omap]. rewrite Hsig, Hshort. reflexivity.
  - destruct (active_rule record) as [rule|]; cbn [omap list_omap].
    + by rewrite Hdecl, Hcond.
    + reflexivity.
Qed.

Lemma validate_eq (valid_c : string → bool)
    (holds : string → list Byte.byte → bool)
    (record : WitRecord) (data : option (list Byte.byte)) (len : N) :
  validate valid_c holds record data len
  = let base (ok : list Byte.byte → bool) :=
      match data with
      | None => Empty
      | Some buf =>
          if (len =? 0)%N then Empty
          else if (len <? sizeof_record record)%N then Corrupt
          else if ok buf then Valid else RefinementViolation
      end in
    match active_rule record with
    | None => Some (base (λ _, true))
    | Some rule =>
        let cond := qualify rule (fields record) in
        if declared (record_cells record) cond && valid_c cond
        then Some (base (holds cond))
        else None
    end.
Proof.
  unfold validate. cbv zeta.
  rewrite struct_members_cells, struct_size_record, read_validator.
  destruct (active_rule record) as [rule|]; cbn [app compiles forallb].
  - rewrite andb_true_r.
    destruct (declared _ _ && valid_c _); [|done].
    cbn [run]. destruct data as [buf|]; [|done].
    destruct (len =? 0)%N; [done|].
    destruct (len <? sizeof_record record)%N; [done|].
    by destruct (holds _ buf).
  - cbn [run]. destruct data as [buf|]; [|done].
    destruct (len =? 0)%N; [done|].
    by destruct (len <? sizeof_record record)%N.
Qed.




(** The example of the specification: [confidence >= 0.0] on a record
    with the field [confidence: score].  The field is an 8-byte float
    cell of the struct, the condition reads it through [rec], and a
    buffer of sufficient length on which the condition is false is
    rejected. *)
Lemma confidence_example (holds : string → list Byte.byte → bool)
    (buf : list Byte.byte) :
  layout_cells "score" "confidence" = [(c_double, "confidence")]
  ∧ (c_double, "confidence") ∈ struct_members (generate_record_struct score_record)
  ∧ sizeof c_double = 8%N
  ∧ qualify "confidence >= 0.0" (fields score_record)
    = "rec->confidence >= 0.0"
  ∧ accesses "rec->confidence >= 0.0" = ["confidence"]
  ∧ (holds "rec->confidence >= 0.0" buf = false →
     validate (λ _, true) holds score_record (Some buf)
       (sizeof_record score_record)
     = Some RefinementViolation).
Proof.
  split; [reflexivity|].
  split; [vm_compute; do 4 apply list_elem_of_further;
          apply list_elem_of_here|].
  split; [reflexivity|]. split; [vm_compute; reflexivity|].
  split; [vm_compute; reflexivity|].
  intros H. rewrite validate_eq.
  assert (active_rule score_record = Some "confidence >= 0.0") as ->
    by reflexivity.
  cbv zeta.
  assert (qualify "confidence >= 0.0" (fields score_record)
          = "rec->confidence >= 0.0") as -> by (vm_compute; reflexivity).
  assert (declared (record_cells score_record) "rec->confidence >= 0.0"
          = true) as -> by (vm_compute; reflexivity).
  rewrite H. by vm_compute.
Qed.

(** ** Annotations *)

Lemma record_match_annotated (wit_text : string) (m : rmatch) (rule : string) :
  m ∈ finditer RECORD_BLOCK_RE wit_text →
  m_group m 1 = Some rule →
  annotated_in (record_of_match m) rule wit_text.
Proof.
  intros H.
  apply finditer_sound in H as (pre & w & post & g' & -> & H & ->).
  unfold RECORD_BLOCK_RE, Plus in H.
  destruct H as (wa & r0 & g0 & -> & Ha & H).
  destruct H as (wb & r1 & k1 & -> & [Hwb ->] & H).
  destruct H as (kw & r2 & k2 & -> & [-> ->] & H).
  destruct H as (w1 & r3 & k3 & -> & Hw1 & H).
  destruct Hw1 as (sc & st & g1 & -> & [(c & -> & Hc) ->] & [Hst ->]).
  destruct H as (wn & r4 & k4 & -> & Hn & H).
  destruct Hn as (g2 & (nc & nt & g3 & -> & [(d & -> & Hd) ->] & [Hnt ->])
                  & ->).
  destruct H as (w2 & r5 & k5 & -> & [Hw2 ->] & H).
  destruct H as (lb & r6 & k6 & -> & [-> ->] & H).
  destruct H as (wbody & rb & k7 & -> & (g4 & [Hbody ->] & ->) & [-> ->]).
  change (String d "" +:+ nt) with (String d nt) in *.
  change (String c "" +:+ st) with (String c st) in *.
  cbn [m_group]. unfold set_cap at 1 2. cbn [Nat.eqb].
  destruct Ha as [Ha|[-> ->]]; [|done].
  destruct Ha as (e0 & a0 & h0 & -> & (-> & -> & Hbol) & Ha).
  destruct Ha as (b1 & a1 & h1 & -> & [Hb1 ->] & Ha).
  destruct Ha as (sl & a2 & h2 & -> & [-> ->] & Ha).
  destruct Ha as (v1 & a3 & h3 & -> & [Hv1 ->] & Ha).
  destruct Ha as (at' & a4 & h4 & -> & [-> ->] & Ha).
  destruct Ha as (wr & a5 & h5 & -> & Hr & Ha).
  destruct Hr as (h6 & (rc & rt & h7 & -> & [(x & -> & Hx) ->] & [Hrt ->])
                  & ->).
  destruct Ha as (rp & a6 & h8 & -> & [-> ->] & Ha).
  destruct Ha as (v2 & a7 & h9 & -> & [Hv2 ->] & (y & -> & Hy) & ->).
  change (String x "" +:+ rt) with (String x rt) in *.
  apply Ascii.eqb_eq in Hy. subst y.
  unfold set_cap. cbn [Nat.eqb]. intros ?; simplify_eq.
  unfold annotated_in, record_of_match. cbn [r_name].
  replace (group (RMatch _ _) 2) with (String d nt) by reflexivity.
  exists pre, b1, v1, v2, wb, (String c st), w2, wbody, post.
  split; [rewrite !app_nil_l; by rewrite !append_assoc|].
  unfold is_blank, line_start.
  repeat split; try done; by apply all_cons.
Qed.

(** X2.  A record the parser returns has a refinement rule only if the
    source has the annotation line [/// @refine(<rule>)] at the start of
    a line, followed after its line break, with nothing but blanks in
    between, by the block of that record; the rule is the text between
    the parentheses, is not empty and has no closing parenthesis. *)
Theorem refinement_is_annotated (wit_text : string) (record : WitRecord)
    (rule : string) :
  record ∈ parse_records wit_text →
  refine_rule record = Some rule →
  annotated_in record rule wit_text.
Proof.
  unfold parse_records. intros H Hr.
  apply list_elem_of_In, in_map_iff in H as (m & <- & Hm).
  apply list_elem_of_In in Hm. by apply record_match_annotated.
Qed.

Lemma refinement_is_annotated_witness :
  score_record ∈ parse_records scored_wit
  ∧ refine_rule score_record = Some "confidence >= 0.0"
  ∧ annotated_in score_record "confidence >= 0.0" scored_wit.
Proof.
  assert (score_record ∈ parse_records scored_wit) as H
    by (vm_compute; constructor).
  split; [exact H|]. split; [reflexivity|].
  exact (refinement_is_annotated scored_wit score_record
           "confidence >= 0.0" H eq_refl).
Defined.

(** ** The names of the records of an entry *)

Lemma record_match_label (wit_text : string) (m : rmatch) :
  m ∈ finditer RECORD_BLOCK_RE wit_text → is_label (group m 2).
Proof.
  intros H.
  apply finditer_sound in H as (pre & w & post & g' & -> & H & ->).
  unfold RECORD_BLOCK_RE, Plus in H.
  destruct H as (wa & r0 & g0 & -> & _ & H).
  destruct H as (wb & r1 & k1 & -> & _ & H).
  destruct H as (kw & r2 & k2 & -> & _ & H).
  destruct H as (w1 & r3 & k3 & -> & _ & H).
  destruct H as (wn & r4 & k4 & -> & Hn & H).
  destruct Hn as (g2 & (nc & nt & g3 & -> & [(d & -> & Hd) ->] & [Hnt ->])
                  & ->).
  destruct H as (w2 & r5 & k5 & -> & [Hw2 ->] & H).
  destruct H as (lb & r6 & k6 & -> & [-> ->] & H).
  destruct H as (wbody & rb & k7 & -> & (g4 & [Hbody ->] & ->) & [-> ->]).
  change (String d "" +:+ nt) with (String d nt) in *.
  replace (group (RMatch _ _) 2) with (String d nt) by reflexivity.
  by exists d, nt.
Qed.

Lemma parsed_record_label (wit_text : string) (record : WitRecord) :
  record ∈ parse_records wit_text → is_label (r_name record).
Proof.
  unfold parse_records. intros H.
  apply list_elem_of_In, in_map_iff in H as (m & <- & Hm).
  apply list_elem_of_In in Hm. by apply record_match_label in Hm.
Qed.

Lemma label_all_ident (s : string) :
  is_label s → Str.all Chr.ident s = true.
Proof.
  intros (c & t & -> & Hc & Ht). apply all_cons; [|done].
  by apply ident_head_ident.
Qed.

Lemma dbi_match_name (name : string) (m : rmatch) :
  pmatch DBI_REC_RE name = Some m →
  Str.all Chr.ident name = true →
  name = "dbi" +:+ group m 1 +:+ "-" +:+ group m 2 +:+ "-" +:+ group m 3.
Proof.
  unfold pmatch. intros H Hall.
  apply match_here_sound in H as (w & s' & g' & -> & H & ->).
  unfold DBI_REC_RE, Plus in H.
  destruct H as (w0 & r0 & k0 & -> & (-> & -> & _) & H).
  destruct H as (w1 & r1 & k1 & -> & [-> ->] & H).
  destruct H as (wd & r2 & k2 & -> & Hd & H).
  destruct Hd as (g1 & (dc & dt & g2 & -> & [(c & -> & Hc) ->] & [Hdt ->])
                  & ->).
  destruct H as (w2 & r3 & k3 & -> & [-> ->] & H).
  destruct H as (wl & r4 & k4 & -> & Hl & H).
  destruct Hl as (g3 & (lc & lt & g4 & -> & [(d & -> & Hd) ->] & [Hlt ->])
                  & ->).
  destruct H as (w3 & r5 & k5 & -> & [-> ->] & H).
  destruct H as (wk & r6 & k6 & -> & (g5 & Hk & ->) & (-> & -> & He)).
  change (String c "" +:+ dt) with (String c dt) in *.
  change (String d "" +:+ lt) with (String d lt) in *.
  assert (g5 = set_cap 2 (String d lt) (set_cap 1 (String c dt) no_caps))
    as -> by (destruct Hk as [[-> ->]|[-> ->]]; auto).
  replace (group (RMatch _ _) 1) with (String c dt) by reflexivity.
  replace (group (RMatch _ _) 2) with (String d lt) by reflexivity.
  replace (group (RMatch _ _) 3) with wk by reflexivity.
  destruct He as [->| ->].
  - rewrite ?app_nil_l, ?app_nil_r. by rewrite ?append_assoc.
  - assert (Str.all Chr.ident (String Chr.nl "") = false) as Hnl
      by (vm_compute; reflexivity).
    rewrite !all_app, Hnl in Hall.
    rewrite ?andb_false_r in Hall. done.
Qed.

Lemma name_conflict_None (t : tables) (d : Z) (name old : string) :
  name_conflict t d name = None → names_by_dbi t !! d = Some old →
  old = name.
Proof.
  unfold name_conflict. intros H Hl. rewrite Hl in H.
  destruct (String.eqb_spec old name); [done|]. by cbn in H.
Qed.

Lemma register_named (t t' : tables) (r : WitRecord) :
  tables_named t → is_label (r_name r) → register t r = inr t' →
  tables_named t'.
Proof.
  intros Hinv Hlab. unfold register.
  destruct (pmatch DBI_REC_RE (r_name r)) as [m|] eqn:Hm;
    [|intros; by simplify_eq].
  pose proof (dbi_match_name _ _ Hm (label_all_ident _ Hlab)) as Hname.
  apply dbi_match_shape in Hm as (Hdig & Hne & _ & _).
  destruct (PyInt.int (group m 1)) as [d|] eqn:Hint; [|done].
  destruct (name_conflict t d (group m 2)) eqn:Hc; [done|].
  destruct (default ∅ (per_dbi t !! d) !! group m 3) eqn:Hk; [done|].
  intros ?; simplify_eq.
  intros d' slot' kind' r'. cbn [per_dbi names_by_dbi].
  destruct (decide (d = d')) as [<-|Hd].
  - rewrite !lookup_insert_eq. intros Hs' Hk'. injection Hs' as <-.
    exists (group m 2). split; [done|].
    destruct (decide (group m 3 = kind')) as [<-|Hkind].
    + rewrite lookup_insert_eq in Hk'. injection Hk' as <-.
      by exists (group m 1).
    + rewrite lookup_insert_ne in Hk' by done.
      destruct (per_dbi t !! d) as [slot|] eqn:Hs;
        cbn [from_option id] in Hk'; [|by rewrite lookup_empty in Hk'].
      destruct (Hinv d slot kind' r' Hs Hk') as (label & Hl & Hn).
      by rewrite <- (name_conflict_None t d (group m 2) label Hc Hl).
  - rewrite !lookup_insert_ne by done. apply Hinv.
Qed.

Lemma register_from (records : list WitRecord) (t t' : tables)
    (r : WitRecord) :
  tables_from records t → r ∈ records → register t r = inr t' →
  tables_from records t'.
Proof.
  intros Hinv Hr. unfold register.
  destruct (pmatch DBI_REC_RE (r_name r)) as [m|]; [|intros; by simplify_eq].
  destruct (PyInt.int (group m 1)) as [d|]; [|done].
  destruct (name_conflict t d (group m 2)); [done|].
  destruct (default ∅ (per_dbi t !! d) !! group m 3) eqn:Hk; [done|].
  intros ?; simplify_eq.
  intros d' slot' kind' r'. cbn [per_dbi].
  destruct (decide (d = d')) as [<-|Hd].
  - rewrite lookup_insert_eq. intros ?; simplify_eq.
    destruct (decide (group m 3 = kind')) as [<-|Hkind].
    + rewrite lookup_insert_eq. by intros ?; simplify_eq.
    + rewrite lookup_insert_ne by done.
      destruct (per_dbi t !! d) as [slot|] eqn:Hs;
        cbn [from_option id]; [|by rewrite lookup_empty].
      exact (Hinv d slot kind' r' Hs).
  - rewrite lookup_insert_ne by done. exact (Hinv d' slot' kind' r').
Qed.

Lemma register_all_named (all_records records : list WitRecord) :
  (∀ r, r ∈ records → r ∈ all_records ∧ is_label (r_name r)) →
  ∀ t t',
    tables_named t → tables_from all_records t →
    register_all t records = inr t' →
    tables_named t' ∧ tables_from all_records t'.
Proof.
  induction records as [|r rs IH]; intros Hrs t t' Hn Hf H; cbn in H.
  - by simplify_eq.
  - destruct (register t r) as [e|t1] eqn:Hr; [done|].
    destruct (Hrs r) as [Hin Hlab]; [by left|].
    eapply IH; [| | |done].
    + intros r' Hr'. apply Hrs. by right.
    + by eapply register_named.
    + by eapply register_from.
Qed.

Lemma build_entries_named (all_records : list WitRecord) (t : tables)
    (dbis : list Z) :
  tables_named t → tables_from all_records t →
  ∀ es, build_entries t dbis = inr es →
  ∀ e, e ∈ es →
    key_record e = r_name (key_ast e)
    ∧ value_record e = r_name (value_ast e)
    ∧ dbi_record_name (dbi e) (e_name e) "key" (key_record e)
    ∧ dbi_record_name (dbi e) (e_name e) "value" (value_record e)
    ∧ key_ast e ∈ all_records ∧ value_ast e ∈ all_records.
Proof.
  intros Hn Hf. induction dbis as [|d ds IH]; intros es H e He; cbn in H.
  - simplify_eq. by apply elem_of_nil in He.
  - destruct (per_dbi t !! d) as [slot|] eqn:Hs; [|done].
    destruct (slot !! "key") as [k|] eqn:Hk; [|done].
    destruct (slot !! "value") as [v|] eqn:Hv; [|done].
    destruct (names_by_dbi t !! d) as [name|] eqn:Hname; [|done].
    destruct (build_entries t ds) as [err|es'] eqn:Hb; [done|].
    simplify_eq. apply elem_of_cons in He as [->|He]; [|by eapply IH].
    cbn [key_record value_record key_ast value_ast dbi e_name].
    destruct (Hn d slot "key" k Hs Hk) as (l1 & Hl1 & Hn1).
    destruct (Hn d slot "value" v Hs Hv) as (l2 & Hl2 & Hn2).
    simplify_eq. repeat split; try done; by eapply Hf.
Qed.

(** X3.  In the list the resolver returns, the key record of an entry is
    named [dbi<digits>-<label>-key] and its value record
    [dbi<digits>-<label>-value], where the label is the name of the
    entry and the digits read as its index; [key_record] and
    [value_record] are the names of the two records, and both records
    are records of the source. *)
Theorem entries_are_named (wit_text : string) (entries : list DbiEntry)
    (e : DbiEntry) :
  parse_dbi_entries wit_text = inr entries → e ∈ entries →
  key_record e = r_name (key_ast e)
  ∧ value_record e = r_name (value_ast e)
  ∧ dbi_record_name (dbi e) (e_name e) "key" (key_record e)
  ∧ dbi_record_name (dbi e) (e_name e) "value" (value_record e)
  ∧ key_ast e ∈ parse_records wit_text
  ∧ value_ast e ∈ parse_records wit_text.
Proof.
  unfold parse_dbi_entries. intros H He.
  destruct (register_all no_tables (parse_records wit_text)) as [err|t] eqn:Ht;
    [done|].
  assert (tables_named t ∧ tables_from (parse_records wit_text) t)
    as [Hn Hf].
  { apply (register_all_named (parse_records wit_text)
             (parse_records wit_text)) with (t := no_tables);
      [| | |exact Ht].
    - intros r Hr. split; [done|]. by eapply parsed_record_label.
    - intros d slot kind r Hs. cbn in Hs. by rewrite lookup_empty in Hs.
    - intros d slot kind r Hs. cbn in Hs. by rewrite lookup_empty in Hs. }
  unfold resolve in H. repeat case_match; simplify_eq.
  by eapply build_entries_named.
Qed.

Lemma entries_are_named_witness :
  parse_dbi_entries state_wit = inr [state_entry]
  ∧ state_entry ∈ [state_entry]
  ∧ dbi_record_name (dbi state_entry) (e_name state_entry) "key"
      (key_record state_entry)
  ∧ key_ast state_entry ∈ parse_records state_wit.
Proof.
  assert (parse_dbi_entries state_wit = inr [state_entry]) as H
    by (vm_compute; reflexivity).
  assert (state_entry ∈ [state_entry]) as He by constructor.
  split; [exact H|]. split; [exact He|].
  destruct (entries_are_named state_wit [state_entry] state_entry H He)
    as (_ & _ & Hk & _ & Hin & _).
  split; [exact Hk|exact Hin].
Defined.

(** ** The manifest checker *)

Lemma items_full (a b c d e f : string) :
  dict_items manifest_header [a; b; c; d; e; f]
  = [ (Some "dbi", VStr a); (Some "name", VStr b);
      (Some "key_format", VStr c); (Some "value_format", VStr d);
      (Some "owner", VStr e); (Some "status", VStr f) ].
Proof. reflexivity. Qed.

Lemma first_blank_full (idx : nat) (row : list string) :
  full_row row →
  first_blank idx (dict_items manifest_header row) = None
  ∧ ∃ c, head row = Some c
         ∧ od_get "dbi" (dict_items manifest_header row) = Some (VStr c).
Proof.
  intros [Hlen Hcells].
  destruct row as [|a [|b [|c [|d [|e [|f [|g rest]]]]]]]; try done.
  rewrite items_full. split; [|by exists a].
  cbn [first_blank blank_cell].
  rewrite !Hcells; [done|set_solver..].
Qed.

Lemma first_blank_None (idx : nat) (row : list string) :
  first_blank idx (dict_items manifest_header row) = None → full_row row.
Proof.
  destruct row as [|a [|b [|c [|d [|e [|f [|g rest]]]]]]].
  - intros H. exfalso.
    change (dict_items manifest_header [])
      with [ (Some "dbi", VNone); (Some "name", VNone); (Some "key_format", VNone); (Some "value_format", VNone); (Some "owner", VNone); (Some "status", VNone) ] in H.
    cbn [first_blank blank_cell] in H.
    repeat match type of H with
           | context [Str.is_empty (Str.strip ?s)] =>
               destruct (Str.is_empty (Str.strip s))
           end; done.
  - intros H. exfalso.
    change (dict_items manifest_header [a])
      with [ (Some "dbi", VStr a); (Some "name", VNone); (Some "key_format", VNone); (Some "value_format", VNone); (Some "owner", VNone); (Some "status", VNone) ] in H.
    cbn [first_blank blank_cell] in H.
    repeat match type of H with
           | context [Str.is_empty (Str.strip ?s)] =>
               destruct (Str.is_empty (Str.strip s))
           end; done.
  - intros H. exfalso.
    change (dict_items manifest_header [a; b])
      with [ (Some "dbi", VStr a); (Some "name", VStr b); (Some "key_format", VNone); (Some "value_format", VNone); (Some "owner", VNone); (Some "status", VNone) ] in H.
    cbn [first_blank blank_cell] in H.
    repeat match type of H with
           | context [Str.is_empty (Str.strip ?s)] =>
               destruct (Str.is_empty (Str.strip s))
           end; done.
  - intros H. exfalso.
    change (dict_items manifest_header [a; b; c])
      with [ (Some "dbi", VStr a); (Some "name", VStr b); (Some "key_format", VStr c); (Some "value_format", VNone); (Some "owner", VNone); (Some "status", VNone) ] in H.
    cbn [first_blank blank_cell] in H.
    repeat match type of H with
           | context [Str.is_empty (Str.strip ?s)] =>
               destruct (Str.is_empty (Str.strip s))
           end; done.
  - intros H. exfalso.
    change (dict_items manifest_header [a; b; c; d])
      with [ (Some "dbi", VStr a); (Some "name", VStr b); (Some "key_format", VStr c); (Some "value_format", VStr d); (Some "owner", VNone); (Some "status", VNone) ] in H.
    cbn [first_blank blank_cell] in H.
    repeat match type of H with
           | context [Str.is_empty (Str.strip ?s)] =>
               destruct (Str.is_empty (Str.strip s))
           end; done.
  - intros H. exfalso.
    change (dict_items manifest_header [a; b; c; d; e])
      with [ (Some "dbi", VStr a); (Some "name", VStr b); (Some "key_format", VStr c); (Some "value_format", VStr d); (Some "owner", VStr e); (Some "status", VNone) ] in H.
    cbn [first_blank blank_cell] in H.
    repeat match type of H with
           | context [Str.is_empty (Str.strip ?s)] =>
               destruct (Str.is_empty (Str.strip s))
           end; done.
  - rewrite items_full. cbn [first_blank blank_cell]. intros H.
    split; [done|]. intros x Hx.
    repeat (apply elem_of_cons in Hx as [->|Hx];
            [by repeat match type of H with
                       | context [Str.is_empty (Str.strip ?s)] =>
                           destruct (Str.is_empty (Str.strip s))
                       end|]).
    by apply elem_of_nil in Hx.
  - intros H. exfalso.
    change (dict_items manifest_header (a :: b :: c :: d :: e :: f :: g :: rest))
      with [ (Some "dbi", VStr a); (Some "name", VStr b);
             (Some "key_format", VStr c); (Some "value_format", VStr d);
             (Some "owner", VStr e); (Some "status", VStr f);
             (None, VList (g :: rest)) ] in H.
    cbn [first_blank blank_cell] in H.
    repeat match type of H with
           | context [Str.is_empty (Str.strip ?s)] =>
               destruct (Str.is_empty (Str.strip s))
           end; done.
Qed.

Lemma check_rows_sound (data : list (list string)) :
  ∀ (idx : nat) (seen seen' : gset Z),
    check_rows idx seen (map (dict_items manifest_header) data) = inr seen' →
    Forall full_row data
    ∧ ∃ dbis, Forall2 row_dbi data dbis ∧ NoDup dbis
              ∧ Forall (Z.le 0) dbis ∧ (∀ d, d ∈ dbis → d ∉ seen)
              ∧ seen' = list_to_set dbis ∪ seen.
Proof.
  induction data as [|row data IH]; intros idx seen seen' H.
  - cbn in H. simplify_eq. split; [constructor|].
    exists []. repeat split; try constructor; [set_solver|set_solver].
  - cbn [map check_rows] in H.
    destruct (first_blank idx (dict_items manifest_header row)) eqn:Hb;
      [done|].
    apply first_blank_None in Hb.
    destruct (first_blank_full idx row Hb) as (_ & c & Hc & Hget).
    rewrite Hget in H.
    destruct (PyInt.int c) as [d|] eqn:Hint; [|done].
    destruct (Z.ltb_spec d 0); [done|].
    case_bool_decide as Hseen; [done|].
    apply IH in H as (Hfull & dbis & Hd & Hnd & Hpos & Hfresh & ->).
    split; [by constructor|].
    exists (d :: dbis). repeat split.
    + constructor; [by exists c|done].
    + constructor; [|done]. intros Hin. apply Hfresh in Hin. set_solver.
    + by constructor.
    + intros d' [->|Hin]%elem_of_cons; [done|].
      apply Hfresh in Hin. set_solver.
    + set_solver.
Qed.

Lemma check_rows_complete (data : list (list string)) :
  ∀ (idx : nat) (seen : gset Z) (dbis : list Z),
    Forall full_row data → Forall2 row_dbi data dbis → NoDup dbis →
    Forall (Z.le 0) dbis → (∀ d, d ∈ dbis → d ∉ seen) →
    check_rows idx seen (map (dict_items manifest_header) data)
    = inr (list_to_set dbis ∪ seen).
Proof.
  induction data as [|row data IH];
    intros idx seen dbis Hfull Hd Hnd Hpos Hfresh.
  - apply Forall2_nil_inv_l in Hd as ->. cbn. f_equal. set_solver.
  - apply Forall2_cons_inv_l in Hd as (d & ds & (c & Hc & Hint) & Hd & ->).
    apply Forall_cons in Hfull as [Hrow Hfull].
    apply NoDup_cons in Hnd as [Hd' Hnd].
    apply Forall_cons in Hpos as [Hd0 Hpos].
    cbn [map check_rows].
    destruct (first_blank_full idx row Hrow) as (-> & c' & Hc' & ->).
    simplify_eq. rewrite Hint.
    destruct (Z.ltb_spec d 0); [lia|].
    rewrite bool_decide_eq_false_2 by (apply Hfresh; by left).
    rewrite (IH (S idx) ({[d]} ∪ seen) ds); try done.
    + f_equal. set_solver.
    + intros d' Hin. assert (d' ∉ seen) by (apply Hfresh; by right).
      set_solver.
Qed.

Lemma first_gap_seq (n : nat) :
  ∀ s, first_gap (map Z.of_nat (seq s n)) = None.
Proof.
  induction n as [|n IH]; intros s; [done|].
  destruct n as [|n]; [done|].
  change (map Z.of_nat (seq s (S (S n))))
    with (Z.of_nat s :: map Z.of_nat (seq (S s) (S n))).
  change (map Z.of_nat (seq (S s) (S n)))
    with (Z.of_nat (S s) :: map Z.of_nat (seq (S (S s)) n)).
  cbn [first_gap].
  replace (Z.of_nat (S s) =? Z.of_nat s + 1) with true
    by (symmetry; apply Z.eqb_eq; lia).
  cbn [negb]. apply (IH (S s)).
Qed.

Lemma last_seq (n : nat) :
  List.last (map Z.of_nat (seq 0 (S n))) 0 = Z.of_nat n.
Proof. rewrite seq_S, map_app. cbn [map]. apply last_last. Qed.

Lemma seq_sorted_le (s n : nat) :
  StronglySorted Z.le (map Z.of_nat (seq s n)).
Proof.
  revert s. induction n as [|n IH]; intros s; cbn; constructor.
  - apply IH.
  - apply Forall_forall. intros x Hx.
    apply list_elem_of_In, in_map_iff in Hx as (i & <- & Hi).
    apply in_seq in Hi. lia.
Qed.

Lemma sorted_seen (dbis : list Z) :
  NoDup dbis →
  merge_sort Z.le (elements (list_to_set dbis ∪ (∅ : gset Z))) ≡ₚ dbis.
Proof.
  intros Hnd. rewrite merge_sort_Permutation.
  rewrite (right_id_L ∅ (∪)). by apply elements_list_to_set.
Qed.

Lemma full_reader_header (rows : list (list string)) :
  head rows = Some manifest_header →
  full_reader rows = map (dict_items manifest_header) (data_rows rows).
Proof. destruct rows as [|h tl]; [done|]. cbn. by intros [= ->]. Qed.

Lemma check_manifest_iff (path : string)
    (read : string → option (list (list string)))
    (rows : list (list string)) (n : nat) (max_dbi : Z) :
  read path = Some rows →
  check_manifest_main [path] read = MPass n max_dbi
  ↔ head rows = Some manifest_header
    ∧ n = length (data_rows rows) ∧ (0 < n)%nat
    ∧ max_dbi = Z.of_nat n - 1
    ∧ Forall full_row (data_rows rows)
    ∧ ∃ dbis, Forall2 row_dbi (data_rows rows) dbis
              ∧ dbis ≡ₚ map Z.of_nat (seq 0 n).
Proof.
  intros Hread. unfold check_manifest_main. rewrite Hread.
  case_bool_decide as Hh; cbn [negb]; [|by split; [|intros [? _]]].
  rewrite (full_reader_header rows Hh).
  destruct (data_rows rows) as [|row0 data0] eqn:Hdata.
  { cbn [map]. split; [done|]. intros (_ & -> & ? & _). cbn in *. lia. }
  rewrite <- Hdata. clear row0 data0 Hdata.
  set (data := data_rows rows).
  destruct (map (dict_items manifest_header) data) as [|i0 items] eqn:Hmap.
  { split; [done|]. intros (_ & -> & Hn & _).
    rewrite <- (length_map (dict_items manifest_header)), Hmap in Hn.
    cbn in Hn. lia. }
  rewrite <- Hmap. clear i0 items Hmap.
  split.
  - destruct (check_rows 2 ∅ (map (dict_items manifest_header) data))
      as [r|seen] eqn:Hc.
    { intros ->.
      assert (∀ idx seen rows' e k,
                check_rows idx seen rows' = inl (MPass e k) → False) as Hno.
      { clear. intros idx seen rows'. revert idx seen.
        induction rows' as [|r rs IH]; intros idx seen e k H; [done|].
        cbn in H.
        destruct (first_blank idx r) as [res|] eqn:Hb.
        - simplify_eq. clear -Hb. induction r as [|[k' v] r IHr]; [done|].
          cbn in Hb. destruct (blank_cell v) as [[]|]; by auto.
        - repeat case_match; try done. by eapply IH. }
      by eapply Hno in Hc. }
    apply check_rows_sound in Hc
      as (Hfull & dbis & Hd & Hnd & Hpos & _ & ->).
    pose proof (sorted_seen dbis Hnd) as Hperm.
    destruct (merge_sort Z.le (elements (list_to_set dbis ∪ ∅)))
      as [|d0 l] eqn:Hs; [done|].
    destruct (Z.eqb_spec d0 0) as [->|]; [|done]. cbn [negb].
    destruct (first_gap (0 :: l)) as [[p c]|] eqn:Hg; [done|].
    intros [= <- <-].
    pose proof (first_gap_None l 0 Hg) as Hl.
    change (Z.of_nat 0) with 0 in Hl.
    assert (length (0 :: l) = length data) as Hlen.
    { rewrite Hperm. symmetry. by eapply Forall2_length. }
    rewrite length_map. split; [done|]. split; [done|].
    split; [cbn in Hlen; lia|].
    split.
    { change (List.last (0 :: l) 0 = Z.of_nat (length data) - 1).
      rewrite Hl, last_seq. cbn [length] in Hlen. lia. }
    split; [done|]. exists dbis. split; [done|].
    rewrite <- Hperm, Hl. cbn [length] in Hlen. by rewrite <- Hlen.
  - intros (_ & -> & Hn & -> & Hfull & dbis & Hd & Hperm).
    assert (NoDup dbis) as Hnd
      by (rewrite Hperm; apply (NoDup_fmap_2 Z.of_nat), NoDup_seq).
    assert (Forall (Z.le 0) dbis) as Hpos.
    { rewrite Hperm. apply Forall_forall. intros x Hx.
      apply list_elem_of_In, in_map_iff in Hx as (i & <- & _). lia. }
    rewrite (check_rows_complete data 2 ∅ dbis) by (done || set_solver).
    pose proof (sorted_seen dbis Hnd) as Hs.
    assert (merge_sort Z.le (elements (list_to_set dbis ∪ (∅ : gset Z)))
            = map Z.of_nat (seq 0 (length data))) as ->.
    { apply (StronglySorted_unique Z.le).
      - apply StronglySorted_merge_sort; apply _.
      - apply seq_sorted_le.
      - by rewrite Hs. }
    rewrite length_map.
    destruct (length data) as [|k] eqn:Hk; [lia|].
    change (map Z.of_nat (seq 0 (S k)))
      with (0 :: map Z.of_nat (seq 1 k)) at 1.
    cbn [Z.eqb negb].
    change (0 :: map Z.of_nat (seq 1 k)) with (map Z.of_nat (seq 0 (S k))).
    rewrite first_gap_seq, last_seq. f_equal. lia.
Qed.

(** X4.  The manifest checker passes, reporting [n] entries and the
    highest index [max_dbi], exactly when the first row of the file is
    the expected header, the file has [n >= 1] non-empty data rows, each
    of them has six cells none of which is blank, and the dbi cells of
    the data rows read as the integers 0, ..., n-1 in some order;
    [max_dbi] is then n-1.  The rows need not be in ascending order. *)
Theorem check_manifest_passes (path : string)
    (read : string → option (list (list string)))
    (rows : list (list string)) (n : nat) (max_dbi : Z) :
  read path = Some rows →
  check_manifest_main [path] read = MPass n max_dbi
  ↔ head rows = Some manifest_header
    ∧ n = length (data_rows rows) ∧ (0 < n)%nat
    ∧ max_dbi = Z.of_nat n - 1
    ∧ Forall full_row (data_rows rows)
    ∧ ∃ dbis, Forall2 row_dbi (data_rows rows) dbis
              ∧ dbis ≡ₚ map Z.of_nat (seq 0 n).
Proof.
  intros Hread. split.
  - intros H. by apply (check_manifest_iff path read rows n max_dbi Hread).
  - intros H. by apply (check_manifest_iff path read rows n max_dbi Hread).
Qed.

Lemma check_manifest_passes_witness :
  (λ _ : string, Some unsorted_manifest) "dbi_manifest.csv"
    = Some unsorted_manifest
  ∧ check_manifest_main ["dbi_manifest.csv"] (λ _, Some unsorted_manifest)
    = MPass 2 1.
Proof.
  split; [reflexivity|].
  apply (check_manifest_passes "dbi_manifest.csv"
           (λ _, Some unsorted_manifest) unsorted_manifest 2 1 eq_refl).
  split; [reflexivity|]. split; [reflexivity|]. split; [lia|].
  split; [reflexivity|]. split.
  - repeat constructor; intros c Hc;
      repeat (apply elem_of_cons in Hc as [->|Hc]; [by vm_compute|]);
      by apply elem_of_nil in Hc.
  - exists [1; 0]. split; [|apply perm_swap].
    repeat constructor; [exists "1"|exists " 0"]; by vm_compute.
Defined.

(** The dbi cell is given to [int] as it is: white space of [int] around
    the digits is accepted, U+001C is not. *)
Lemma separator_is_not_trimmed :
  check_manifest_main ["dbi_manifest.csv"] (λ _, Some separator_manifest)
  = MFail (MNotInteger 2 (String "028" "0")).
Proof. vm_compute. reflexivity. Qed.









(** On the manifest a run leaves over [cr_manifest], where the owner
    carried forward holds a carriage return, the manifest checker reads
    a row of five cells and fails on the missing status. *)
Lemma carriage_return_fails_check :
  main (Some state_wit) "gen/wit_schema_dbis.h" cr_files = (Pass 1, cr_after)
  ∧ check_manifest_main ["dbi_manifest.csv"]
      (λ _, Csv.read <$> manifest cr_after)
    = MFail (MEmptyCell 2 (Some "status")).
Proof. split; vm_compute; reflexivity. Qed.

(** X6.  A data row whose length is not six never passes.  If the first
    data row has more than six cells and its first six are not blank,
    the checker does not report a failure: it stops on the list of
    surplus cells, which has no [strip] (an uncaught exception).  If it
    has fewer than six cells, all of them not blank, the checker reports
    the first missing column as empty. *)
Theorem wrong_length_row (path : string)
    (read : string → option (list (list string)))
    (row : list string) (more : list (list string)) :
  read path = Some (manifest_header :: row :: more) →
  (∀ c, c ∈ row → Str.is_empty (Str.strip c) = false) →
  ((6 < length row)%nat → check_manifest_main [path] read = MCrash)
  ∧ ((0 < length row < 6)%nat →
     check_manifest_main [path] read
     = MFail (MEmptyCell 2 (manifest_header !! length row))).
Proof.
  intros Hread Hcells. unfold check_manifest_main. rewrite Hread.
  cbn [head]. rewrite bool_decide_eq_true_2 by done. cbn [negb full_reader].
  split; intros Hlen.
  - destruct row as [|a [|b [|c [|d [|e [|f [|g rest]]]]]]];
      try (cbn in Hlen; lia).
    rewrite filter_cons_True by done. cbn [map check_rows].
    change (dict_items manifest_header (a :: b :: c :: d :: e :: f :: g :: rest))
      with [ (Some "dbi", VStr a); (Some "name", VStr b);
             (Some "key_format", VStr c); (Some "value_format", VStr d);
             (Some "owner", VStr e); (Some "status", VStr f);
             (None, VList (g :: rest)) ].
    cbn [first_blank blank_cell].
    rewrite !Hcells; [done|set_solver..].
  - destruct row as [|a [|b [|c [|d [|e [|f [|g rest]]]]]]];
      try (cbn in Hlen; lia);
      rewrite filter_cons_True by done; cbn [map check_rows].
    + change (dict_items manifest_header [a])
        with [ (Some "dbi", VStr a); (Some "name", VNone);
               (Some "key_format", VNone); (Some "value_format", VNone);
               (Some "owner", VNone); (Some "status", VNone) ].
      cbn [first_blank blank_cell]. rewrite !Hcells; [done|set_solver..].
    + change (dict_items manifest_header [a; b])
        with [ (Some "dbi", VStr a); (Some "name", VStr b);
               (Some "key_format", VNone); (Some "value_format", VNone);
               (Some "owner", VNone); (Some "status", VNone) ].
      cbn [first_blank blank_cell]. rewrite !Hcells; [done|set_solver..].
    + change (dict_items manifest_header [a; b; c])
        with [ (Some "dbi", VStr a); (Some "name", VStr b);
               (Some "key_format", VStr c); (Some "value_format", VNone);
               (Some "owner", VNone); (Some "status", VNone) ].
      cbn [first_blank blank_cell]. rewrite !Hcells; [done|set_solver..].
    + change (dict_items manifest_header [a; b; c; d])
        with [ (Some "dbi", VStr a); (Some "name", VStr b);
               (Some "key_format", VStr c); (Some "value_format", VStr d);
               (Some "owner", VNone); (Some "status", VNone) ].
      cbn [first_blank blank_cell]. rewrite !Hcells; [done|set_solver..].
    + change (dict_items manifest_header [a; b; c; d; e])
        with [ (Some "dbi", VStr a); (Some "name", VStr b);
               (Some "key_format", VStr c); (Some "value_format", VStr d);
               (Some "owner", VStr e); (Some "status", VNone) ].
      cbn [first_blank blank_cell]. rewrite !Hcells; [done|set_solver..].
Qed.

Lemma wrong_length_row_witness :
  (λ _ : string,
     Some (manifest_header
           :: ["0"; "state"; "k"; "v"; "runtime"; "active"; "extra"] :: []))
    "dbi_manifest.csv"
  = Some (manifest_header
          :: ["0"; "state"; "k"; "v"; "runtime"; "active"; "extra"] :: [])
  ∧ check_manifest_main ["dbi_manifest.csv"]
      (λ _, Some (manifest_header
                  :: ["0"; "state"; "k"; "v"; "runtime"; "active"; "extra"]
                  :: []))
    = MCrash.
Proof.
  split; [reflexivity|].
  apply (wrong_length_row "dbi_manifest.csv" _
           ["0"; "state"; "k"; "v"; "runtime"; "active"; "extra"] []
           eq_refl).
  - intros c Hc.
    repeat (apply elem_of_cons in Hc as [->|Hc]; [by vm_compute|]).
    by apply elem_of_nil in Hc.
  - cbn. lia.
Defined.

(** ** Each record is emitted once *)

Lemma emit_record_eq (seen : gset string) (record : WitRecord) :
  emit_record seen record
  = if bool_decide (r_name record ∈ seen) then ([], seen)
    else (record_block record, {[r_name record]} ∪ seen).
Proof. reflexivity. Qed.

Lemma emit_records_each (entries : list DbiEntry) :
  ∀ seen, emit_records seen entries = emit_each seen (entry_records entries).
Proof.
  induction entries as [|e es IH]; intros seen; [done|].
  cbn [emit_records entry_records flat_map app emit_each]. cbv zeta.
  by rewrite IH.
Qed.

Lemma emit_each_spec (records : list WitRecord) :
  ∀ seen : gset string,
    ∃ rs,
      emit_each seen records = flat_map record_block rs
      ∧ rs `sublist_of` records
      ∧ NoDup (map r_name rs)
      ∧ (∀ r, r ∈ rs → r_name r ∉ seen)
      ∧ (∀ r, r ∈ records → r_name r ∈ seen ∨ r_name r ∈ map r_name rs).
Proof.
  induction records as [|r0 records IH]; intros seen.
  - exists []. split; [done|]. split; [constructor|]. split; [constructor|].
    split; intros r Hr; by apply elem_of_nil in Hr.
  - cbn [emit_each]. rewrite emit_record_eq.
    case_bool_decide as Hk; cbn [fst snd].
    + destruct (IH seen) as (rs & -> & Hsub & Hnd & Hfresh & Hcov).
      exists rs. split; [done|]. split; [by apply sublist_cons|].
      split; [done|]. split; [done|].
      intros r [->|Hr]%elem_of_cons; auto.
    + destruct (IH ({[r_name r0]} ∪ seen))
        as (rs & -> & Hsub & Hnd & Hfresh & Hcov).
      exists (r0 :: rs). split; [done|]. split; [by apply sublist_skip|].
      split.
      { cbn [map]. constructor; [|done].
        intros Hin. apply list_elem_of_In, in_map_iff in Hin
          as (r & Heq & Hr%list_elem_of_In).
        apply Hfresh in Hr. rewrite Heq in Hr.
        apply Hr, elem_of_union_l, elem_of_singleton. done. }
      split.
      { intros r [->|Hr]%elem_of_cons; [done|].
        apply Hfresh in Hr. intros Hs. by apply Hr, elem_of_union_r. }
      intros r [->|Hr]%elem_of_cons.
      * right. cbn [map]. by left.
      * destruct (Hcov r Hr) as [Hs|Hs].
        -- apply elem_of_union in Hs as [Hs%elem_of_singleton|Hs];
             [|by left]. right. cbn [map]. rewrite Hs. by left.
        -- right. cbn [map]. by right.
Qed.

(** X7.  The second loop of [write_c_header] emits the struct and the
    validator of a record once per record name: what it emits is the
    blocks of a sub-list of the records of the entries (key before
    value, entry after entry) in which no name occurs twice, and every
    record of the entries has its name in that sub-list. *)
Theorem header_blocks_once (entries : list DbiEntry) :
  ∃ rs,
    emit_records ∅ entries = flat_map record_block rs
    ∧ rs `sublist_of` entry_records entries
    ∧ NoDup (map r_name rs)
    ∧ ∀ r, r ∈ entry_records entries → r_name r ∈ map r_name rs.
Proof.
  destruct (emit_each_spec (entry_records entries) ∅)
    as (rs & He & Hsub & Hnd & _ & Hcov).
  exists rs. rewrite emit_records_each. repeat split; try done.
  intros r Hr. destruct (Hcov r Hr) as [Hs|Hs]; [|done].
  by apply not_elem_of_empty in Hs.
Qed.

(** ** The matcher on a text of a known shape *)

Lemma star_greedy {A : Type} (p : ascii → bool) (k : mstate → option A)
    (w s : string) (g : nat → option string) (a : A) :
  ∀ (pv : option ascii) (u : nat),
    Str.all p w = true → stops p s →
    k (MState (Str.last_char pv w) (u + String.length w) s g) = Some a →
    star p k pv u (w +:+ s) g = Some a.
Proof.
  induction w as [|c w IH]; intros pv u Hw Hs Hk.
  - rewrite app_nil_l. cbn [Str.last_char String.length] in Hk.
    rewrite Nat.add_0_r in Hk.
    destruct s as [|c s]; [done|]. cbn [star]. cbn in Hs. by rewrite Hs.
  - rewrite app_cons. cbn [star]. cbn [Str.all] in Hw.
    apply andb_true_iff in Hw as [Hc Hw]. rewrite Hc.
    rewrite (IH (Some c) (S u)); [done..|].
    cbn [Str.last_char String.length] in Hk.
    by rewrite Nat.add_succ_r in Hk.
Qed.

Lemma exec_seq {A : Type} (r1 r2 : re) (k : mstate → option A)
    (st : mstate) :
  exec (r1 ++ r2)%re k st = exec r1 (exec r2 k) st.
Proof. reflexivity. Qed.

Lemma exec_lit {A : Type} (l : string) (k : mstate → option A)
    (pv : option ascii) (u : nat) (s : string) (g : nat → option string) :
  exec (Lit l) k (MState pv u (l +:+ s) g)
  = k (MState (Str.last_char pv l) (u + String.length l) s g).
Proof. cbn [exec rest prev used caps]. by rewrite strip_prefix_app. Qed.

Lemma exec_lit_None {A : Type} (l : string) (k : mstate → option A)
    (st : mstate) :
  Str.strip_prefix l (rest st) = None → exec (Lit l) k st = None.
Proof. intros H. cbn [exec]. by rewrite H. Qed.

Lemma exec_star {A : Type} (p : ascii → bool) (k : mstate → option A)
    (pv : option ascii) (u : nat) (w s : string) (g : nat → option string)
    (a : A) :
  Str.all p w = true → stops p s →
  k (MState (Str.last_char pv w) (u + String.length w) s g) = Some a →
  exec (Star p) k (MState pv u (w +:+ s) g) = Some a.
Proof. intros. cbn [exec rest prev used caps]. by apply star_greedy. Qed.

Lemma exec_plus {A : Type} (p : ascii → bool) (k : mstate → option A)
    (pv : option ascii) (u : nat) (w s : string) (g : nat → option string)
    (a : A) :
  w ≠ "" → Str.all p w = true → stops p s →
  k (MState (Str.last_char pv w) (u + String.length w) s g) = Some a →
  exec (Plus p) k (MState pv u (w +:+ s) g) = Some a.
Proof.
  intros Hne Hw Hs Hk. destruct w as [|c w]; [done|].
  cbn [Str.all] in Hw. apply andb_true_iff in Hw as [Hc Hw].
  unfold Plus. rewrite exec_seq, app_cons.
  cbn [exec rest prev used caps]. rewrite Hc.
  apply star_greedy; [done..|].
  cbn [Str.last_char String.length] in Hk.
  by rewrite Nat.add_succ_r in Hk.
Qed.

Lemma exec_bos {A : Type} (k : mstate → option A) (u : nat) (s : string)
    (g : nat → option string) :
  exec Bos k (MState None u s g) = k (MState None u s g).
Proof. reflexivity. Qed.

Lemma exec_opt {A : Type} (r : re) (k : mstate → option A) (st : mstate) :
  exec (Opt r) k st = orelse (exec r k st) (k st).
Proof. reflexivity. Qed.

Lemma exec_grp {A : Type} (n : nat) (r : re) (k : mstate → option A)
    (st : mstate) :
  exec (Grp n r) k st
  = exec r (λ st', k (MState (prev st') (used st') (rest st')
                        (set_cap n (Str.take (used st' - used st) (rest st))
                           (caps st')))) st.
Proof. reflexivity. Qed.

Lemma take_app (w s : string) (a b : nat) :
  b = (a + String.length w)%nat → Str.take (b - a) (w +:+ s) = w.
Proof.
  intros ->. replace (a + String.length w - a)%nat with (String.length w)
    by lia. apply take_app_length.
Qed.

Lemma take_app2 (w1 w2 s : string) (a b : nat) :
  b = (a + String.length w1 + String.length w2)%nat →
  Str.take (b - a) (w1 +:+ w2 +:+ s) = w1 +:+ w2.
Proof.
  intros ->. rewrite <- append_assoc. apply take_app.
  rewrite length_app. lia.
Qed.

(** ** Field declarations and the lines between them *)

Lemma ident_not_space (c : ascii) :
  Chr.ident c = true → Chr.is_space c = false.
Proof.
  destruct c as [[] [] [] [] [] [] [] []]; intros H;
    vm_compute in H; try discriminate H; reflexivity.
Qed.

Lemma space_facts (c : ascii) :
  Chr.is_space c = true →
  Chr.ident c = false ∧ Ascii.eqb "<" c = false.
Proof.
  destruct c as [[] [] [] [] [] [] [] []]; intros H;
    vm_compute in H; try discriminate H; split; reflexivity.
Qed.

Lemma ident_stops_space (w s : string) :
  is_ident w → stops Chr.is_space (w +:+ s).
Proof.
  intros [Hne Hw]. destruct w as [|c w]; [done|].
  cbn [Str.all] in Hw. apply andb_true_iff in Hw as [Hc _].
  rewrite app_cons. cbn [stops]. by apply ident_not_space.
Qed.

Lemma blank_stops_ident (w s : string) :
  is_blank w → stops Chr.ident s → stops Chr.ident (w +:+ s).
Proof.
  intros Hw Hs. destruct w as [|c w]; [done|].
  unfold is_blank in Hw. cbn [Str.all] in Hw.
  apply andb_true_iff in Hw as [Hc _].
  rewrite app_cons. cbn [stops]. by apply space_facts.
Qed.

Lemma blank_no_suffix (w s : string) :
  is_blank w → Str.strip_prefix "<" (w +:+ String "," s) = None.
Proof.
  intros Hw. destruct w as [|c w]; [done|].
  unfold is_blank in Hw. cbn [Str.all] in Hw.
  apply andb_true_iff in Hw as [Hc _].
  rewrite app_cons. cbn [Str.strip_prefix].
  apply space_facts in Hc as [_ Hc]. by rewrite Hc.
Qed.

Lemma orelse_Some {A : Type} (x y : option A) (a : A) :
  x = Some a → orelse x y = Some a.
Proof. by intros ->. Qed.

(** The pattern reads a declaration that stands at the start of a
    line. *)
Lemma field_chunk_match (f : WitField) (chunk post : string)
    (pv : option ascii) :
  field_chunk f chunk → pv = None ∨ pv = Some Chr.nl →
  match_here FIELD_RE false pv (chunk +:+ post)
  = Some (RMatch (String.length chunk)
            (set_cap 2 (wit_type f) (set_cap 1 (f_name f) no_caps))).
Proof.
  intros (w1 & w2 & w3 & w4 & -> & H1 & H2 & H3 & H4 & Hname
          & base & Hbase & Htype) Hpv.
  pose proof Hname as [Hne Hid]. pose proof Hbase as [Hbne Hb].
  assert (∃ sfx, wit_type f = base +:+ sfx
            ∧ (sfx = "" ∨ ∃ arg, arg ≠ ""
                 ∧ Str.all (Chr.is_not ">") arg = true
                 ∧ sfx = String "<" (arg +:+ ">"))) as (sfx & Ht & Hsfx).
  { destruct Htype as [->|(arg & ? & ? & ->)].
    - exists "". by rewrite app_nil_r; auto.
    - exists (String "<" (arg +:+ ">")). split; [done|]. right. eauto. }
  rewrite Ht. rewrite !append_assoc.
  unfold match_here, FIELD_RE. rewrite exec_seq.
  assert (∀ (k : mstate → option rmatch) s g,
            exec Bol k (MState pv 0 s g) = k (MState pv 0 s g)) as ->.
  { by destruct Hpv as [-> | ->]. }
  rewrite exec_seq.
  apply exec_star; [done|by apply ident_stops_space|].
  rewrite exec_seq, exec_grp.
  apply exec_plus; [done|done|by apply blank_stops_ident|].
  cbn [prev used rest caps]. rewrite take_app by lia.
  rewrite exec_seq. apply exec_star; [done|done|].
  rewrite exec_seq.
  change (":" +:+ ?x) with (":" +:+ x).
  rewrite exec_lit.
  rewrite exec_seq. apply exec_star; [done|by apply ident_stops_space|].
  rewrite exec_seq, exec_grp, exec_seq.
  apply exec_plus; [done|done|..].
  { destruct Hsfx as [->|(arg & _ & _ & ->)]; [|done].
    rewrite app_nil_l. by apply blank_stops_ident. }
  rewrite exec_opt.
  assert (∀ pv0 u0 g0,
            exec (Star Chr.is_space ++ Lit ",")%re (accept false)
              (MState pv0 u0 (w4 +:+ "," +:+ post) g0)
            = Some (RMatch (u0 + String.length w4 + 1) g0)) as Htail.
  { intros pv0 u0 g0. rewrite exec_seq. apply exec_star; [done|done|].
    by rewrite exec_lit. }
  cbn [prev used rest caps].
  destruct Hsfx as [->|(arg & Harg & Hargs & ->)].
  - rewrite app_nil_l. rewrite exec_seq.
    rewrite exec_lit_None by (by apply blank_no_suffix).
    cbn [orelse prev used rest caps].
    rewrite Htail. rewrite take_app by lia.
    rewrite app_nil_r.
    do 2 f_equal. rewrite !length_app. cbn [String.length]. lia.
  - apply orelse_Some. rewrite exec_seq.
    rewrite app_cons, !append_assoc.
    change (String "<" ?x) with ("<" +:+ x). rewrite exec_lit.
    rewrite exec_seq. apply exec_plus; [done|done|done|].
    change (">" +:+ ?x) with (">" +:+ x). rewrite exec_lit.
    cbn [prev used rest caps]. rewrite Htail.
    f_equal. f_equal.
    + rewrite !length_app. cbn [String.length]. lia.
    + f_equal.
      change (base +:+ "<" +:+ arg +:+ ">" +:+ w4 +:+ "," +:+ post)
        with (base +:+ "<" +:+ arg +:+ (">" +:+ w4 +:+ "," +:+ post)).
      rewrite <- (append_assoc arg), <- (append_assoc "<"),
        <- (append_assoc base).
      rewrite <- (append_assoc "<").
      apply take_app. rewrite !length_app. cbn [String.length]. lia.
Qed.

Lemma not_line_start (adv : bool) (c : ascii) (s : string) :
  c ≠ Chr.nl → match_here FIELD_RE adv (Some c) s = None.
Proof.
  intros Hc. unfold match_here, FIELD_RE. rewrite exec_seq.
  cbn [exec prev]. by destruct (Ascii.eqb_spec c Chr.nl).
Qed.

Lemma line_text_cons (c : ascii) (t : string) :
  line_text (String c t) → c ≠ Chr.nl ∧ line_text t.
Proof.
  unfold line_text. cbn [Str.all]. intros [Hc Ht]%andb_true_iff.
  split; [|done]. unfold Chr.is_not in Hc.
  by destruct (Ascii.eqb_spec c Chr.nl).
Qed.

Lemma hits_gap (pv : option ascii) (c : ascii) (s : string) :
  match_here FIELD_RE false pv (String c s) = None →
  hits pv (String c s) = hits (Some c) s.
Proof. intros H. unfold hits. cbn [scan]. by rewrite H. Qed.

Lemma hits_line (t post : string) :
  ∀ c, c ≠ Chr.nl → line_text t →
    hits (Some c) (t +:+ String Chr.nl post) = hits (Some Chr.nl) post.
Proof.
  induction t as [|a t IH]; intros c Hc Ht.
  - rewrite app_nil_l. by apply hits_gap, not_line_start.
  - apply line_text_cons in Ht as [Ha Ht]. rewrite app_cons.
    rewrite hits_gap by (by apply not_line_start). by apply IH.
Qed.

Lemma hits_line_end (t : string) :
  ∀ c, c ≠ Chr.nl → line_text t → hits (Some c) t = [].
Proof.
  induction t as [|a t IH]; intros c Hc Ht.
  - unfold hits. cbn [scan]. by rewrite not_line_start.
  - apply line_text_cons in Ht as [Ha Ht].
    rewrite hits_gap by (by apply not_line_start). by apply IH.
Qed.

Lemma field_chunk_last (f : WitField) (chunk : string) (pv : option ascii) :
  field_chunk f chunk → Str.last_char pv chunk = Some ","%char.
Proof.
  intros (w1 & w2 & w3 & w4 & -> & _). by rewrite !last_char_app.
Qed.

Lemma hits_chunk (f : WitField) (chunk post : string) (pv : option ascii) :
  field_chunk f chunk → pv = None ∨ pv = Some Chr.nl →
  ∃ m, field_of m = f
       ∧ hits pv (chunk +:+ post) = m :: hits (Some ","%char) post.
Proof.
  intros Hf Hpv.
  pose proof (field_chunk_match f chunk post pv Hf Hpv) as Hm.
  pose proof (field_chunk_last f chunk pv Hf) as Hlast.
  exists (RMatch (String.length chunk)
            (set_cap 2 (wit_type f) (set_cap 1 (f_name f) no_caps))).
  split; [by destruct f|].
  destruct chunk as [|c w].
  - destruct Hpv as [-> | ->]; discriminate Hlast.
  - rewrite app_cons in Hm |- *. unfold hits. cbn [scan].
    rewrite Hm. cbn [m_len String.length omap list_omap].
    rewrite scan_skip. cbn [Str.last_char] in Hlast.
    by rewrite Hlast.
Qed.

Lemma hits_end (pv : option ascii) :
  pv = None ∨ pv = Some Chr.nl → hits pv "" = [].
Proof. by intros [-> | ->]. Qed.

Lemma not_declared_at (s : string) (pv : option ascii) :
  ¬ declared_at s → match_here FIELD_RE false pv s = None.
Proof.
  intros Hs. destruct (match_here _ _ _ _) as [m|] eqn:Hm; [|done].
  destruct Hs. by apply (match_declared false pv s m).
Qed.

(** A declaration stands at the head of [s] exactly when the pattern
    matches there. *)
Lemma declared_at_match (s : string) :
  declared_at s ↔ is_Some (pmatch FIELD_RE s).
Proof.
  split.
  - intros (f & chunk & post & Hf & ->). unfold pmatch.
    rewrite (field_chunk_match f chunk post None Hf) by (by left). done.
  - intros [m Hm]. by apply (match_declared false None s m).
Qed.

Lemma hits_skip (l post : string) (pv : option ascii) :
  line_text l → ¬ declared_at (l +:+ String Chr.nl post) →
  hits pv (l +:+ String Chr.nl post) = hits (Some Chr.nl) post.
Proof.
  intros Hl Hu. pose proof (not_declared_at _ pv Hu) as Hm.
  destruct l as [|a l].
  - by apply hits_gap.
  - apply line_text_cons in Hl as [Ha Hl]. rewrite app_cons in Hm |- *.
    rewrite hits_gap by done. by apply hits_line.
Qed.

Lemma hits_skip_end (l : string) (pv : option ascii) :
  line_text l → l ≠ "" → ¬ declared_at l → hits pv l = [].
Proof.
  intros Hl Hne Hu. pose proof (not_declared_at _ pv Hu) as Hm.
  destruct l as [|a l]; [done|].
  apply line_text_cons in Hl as [Ha Hl].
  rewrite hits_gap by done. by apply hits_line_end.
Qed.

Lemma reads_hits (body : string) (fs : list WitField) :
  Reads body fs →
  ∀ pv, pv = None ∨ pv = Some Chr.nl → map field_of (hits pv body) = fs.
Proof.
  induction 1 as [|f chunk t post fs Hf Ht _ IH|f chunk t Hf Ht
                  |l post fs Hl Hu _ IH|l Hl Hne Hu]; intros pv Hpv.
  - by rewrite hits_end.
  - destruct (hits_chunk f chunk (t +:+ String Chr.nl post) pv Hf Hpv)
      as (m & Hm & ->).
    cbn [map]. rewrite Hm. f_equal.
    rewrite hits_line by done. apply IH. by right.
  - destruct (hits_chunk f chunk t pv Hf Hpv) as (m & Hm & ->).
    cbn [map]. rewrite Hm. f_equal. by rewrite hits_line_end.
  - rewrite hits_skip by done. apply IH. by right.
  - by rewrite hits_skip_end.
Qed.

Lemma reads_parse_fields (body : string) (fs : list WitField) :
  Reads body fs → parse_fields body = fs.
Proof. intros H. apply (reads_hits body fs H None). by left. Qed.

(** In [open_suffix_body] the line of [items] is not a declaration:
    its suffix is not closed.  The line is not dropped: the suffix runs
    on to the [>] of the line of [tags], and the fields [count] and
    [tags], both written in the body, are lost, whereas the body
    without that line has them. *)
Lemma open_suffix_discards_fields :
  parse_records open_suffix_wit
  = [mkWitRecord "dbi0-open-key" None
       [mkWitField "first" "u8"; mkWitField "items" open_suffix_type;
        mkWitField "last" "u8"]]
  ∧ written_in (mkWitField "count" "u32") open_suffix_body
  ∧ written_in (mkWitField "tags" "list<utf8>") open_suffix_body
  ∧ parse_fields closed_body
    = [mkWitField "first" "u8"; mkWitField "count" "u32";
       mkWitField "tags" "list<utf8>"; mkWitField "last" "u8"]
  ∧ ¬ (∀ body f, written_in f body → f ∈ parse_fields body).
Proof.
  assert (written_in (mkWitField "count" "u32") open_suffix_body) as Hcount.
  { exists "
    first: u8,
    items: list<u8,
", "    ", "", " ", "", "
    tags: list<utf8>,
    last: u8,
".
    split; [reflexivity|]. split; [by right|].
    repeat split; try done. exists "u32". repeat split; try done.
    by left. }
  split; [vm_compute; reflexivity|]. split; [exact Hcount|].
  split.
  { exists "
    first: u8,
    items: list<u8,
    count: u32,
", "    ", "", " ", "", "
    last: u8,
".
    split; [reflexivity|]. split; [by right|].
    repeat split; try done. exists "list". repeat split; try done.
    right. exists "utf8". by repeat split. }
  split; [vm_compute; reflexivity|].
  intros H. specialize (H _ _ Hcount). vm_compute in H.
  repeat (apply elem_of_cons in H as [H|H]; [discriminate H|]).
  by apply elem_of_nil in H.
Qed.

(** C9.  Every field of every record the parser returns is written in
    the source: the record comes from a block [record <name> { <body> }]
    of the source text, its fields are those found in that body, and each
    of them is a fragment [<field-name>: <type-token>,] at the start of a
    line of the body (whitespace is free around the name, the colon and
    the type, and a type token may end with a suffix [<...>]).  A line at
    the start of which no field declaration stands is skipped and the
    declarations around it are kept: a body made of field declarations,
    each followed by the rest of its line, and of such lines gives
    exactly the declared fields, in order. *)
Theorem parsed_fields_are_written (wit_text : string) (record : WitRecord) :
  (record ∈ parse_records wit_text →
   ∃ body,
     block_in record body wit_text
     ∧ fields record = parse_fields body
     ∧ ∀ f, f ∈ fields record → written_in f body)
  ∧ (∀ body fs, Reads body fs → parse_fields body = fs).
Proof.
  split; [|apply reads_parse_fields].
  unfold parse_records. intros H.
  apply list_elem_of_In, in_map_iff in H as (m & <- & Hm).
  apply list_elem_of_In in Hm.
  exists (group m 3). split; [by apply record_match_block|].
  split; [done|]. intros f. apply parse_fields_written.
Qed.

Lemma parsed_fields_are_written_witness :
  (mkWitRecord "dbi0-state-key" None [mkWitField "namespace" "utf8"]
     ∈ parse_records state_wit
   ∧ ∃ body,
       block_in
         (mkWitRecord "dbi0-state-key" None [mkWitField "namespace" "utf8"])
         body state_wit
       ∧ [mkWitField "namespace" "utf8"] = parse_fields body
       ∧ ∀ f, f ∈ [mkWitField "namespace" "utf8"] → written_in f body)
  ∧ Reads lenient_body
      [mkWitField "first" "u8"; mkWitField "third" "list<u8>"]
  ∧ parse_fields lenient_body
    = [mkWitField "first" "u8"; mkWitField "third" "list<u8>"].
Proof.
  assert (mkWitRecord "dbi0-state-key" None [mkWitField "namespace" "utf8"]
            ∈ parse_records state_wit) as H.
  { vm_compute. constructor. }
  assert (Reads lenient_body
            [mkWitField "first" "u8"; mkWitField "third" "list<u8>"]) as HR.
  { apply (reads_field (mkWitField "first" "u8") "
    first: u8," "" "    second u16,
    third: list<u8>,
" [mkWitField "third" "list<u8>"]).
    - exists "
    ", "", " ", "". repeat split; try done. exists "u8".
      repeat split; try done. by left.
    - done.
    - apply (reads_skip "    second u16," "    third: list<u8>,
" [mkWitField "third" "list<u8>"]).
      + done.
      + intros (f & chunk & post & Hf & E).
        pose proof (field_chunk_match f chunk post None Hf
                      (or_introl eq_refl)) as Hm.
        rewrite <- E in Hm. vm_compute in Hm. discriminate Hm.
      + apply (reads_field (mkWitField "third" "list<u8>")
                 "    third: list<u8>," "" "" []).
        * exists "    ", "", " ", "". repeat split; try done.
          exists "list". repeat split; try done.
          right. exists "u8". by repeat split.
        * done.
        * constructor. }
  split; [split; [exact H|]|split; [exact HR|]].
  - exact (proj1 (parsed_fields_are_written state_wit _) H).
  - exact (proj2 (parsed_fields_are_written state_wit
                    (mkWitRecord "dbi0-state-key" None
                       [mkWitField "namespace" "utf8"])) _ _ HR).
Defined.

